(** * pyscf/tools/cubegen.py: electron density and electrostatic potential
      on a cube grid

    A shallow embedding of [density] and [mep] and of the numpy and pyscf
    operations they call, followed by the properties of the two functions.

    Numbers.  The source computes in numpy float64.  The embedding is
    parametric in the carrier of the arithmetic (class [Numeric]); the
    control flow, the array plumbing and the error paths are proved for
    every carrier.  Two carriers are provided:
    - [binary64]: Rocq's primitive floats, IEEE 754 binary64, the arithmetic
      numpy really runs; used to execute the embedding on concrete inputs
      and, through the specification of the primitive operations, for the
      statements about the values that float64 produces;
    - [xreal]: real numbers extended with +inf, -inf and NaN and the IEEE
      rules for them, with exact arithmetic on finite values (no rounding,
      overflow or underflow); used for what the Coulomb formula is worth in
      exact arithmetic, which float64 only approximates. *)

From Stdlib Require Import ZArith List Reals Lra Lia Floats.
From Stdlib Require Uint63.
From stdpp Require Import base list gmap strings.

Local Open Scope Z_scope.

(** ** Python exceptions and fallible results *)

Inductive exn := ValueError | TypeError | IndexError.

Inductive result (A : Type) :=
| Ok (a : A)
| Raise (e : exn).
Arguments Ok {A} a.
Arguments Raise {A} e.

Definition is_ok {A} (r : result A) : bool :=
  match r with Ok _ => true | Raise _ => false end.

(** ** The arithmetic of numpy scalars *)

Class Numeric (F : Type) := {
  fadd : F -> F -> F;
  fsub : F -> F -> F;
  fmul : F -> F -> F;
  fdiv : F -> F -> F;          (* never raises: numpy only warns on x/0 *)
  fsqrt : F -> F;              (* numpy evaluates [a ** .5] as sqrt(a) *)
  of_int : Z -> F              (* a Python int promoted to float64 *)
}.

(** IEEE 754 binary64 through the kernel's primitive floats.  [of_int] is
    exact for |z| < 2^53 and rounds up to 2^63; nuclear charges are far
    below that. *)
Definition float_of_Z (z : Z) : float :=
  if z <? 0 then PrimFloat.opp (PrimFloat.of_uint63 (Uint63.of_Z (- z)))
  else PrimFloat.of_uint63 (Uint63.of_Z z).

Definition binary64 : Numeric float := {|
  fadd := PrimFloat.add;
  fsub := PrimFloat.sub;
  fmul := PrimFloat.mul;
  fdiv := PrimFloat.div;
  fsqrt := PrimFloat.sqrt;
  of_int := float_of_Z
|}.

(** Extended reals: the special values of IEEE arithmetic over exact real
    arithmetic.  Signed zeros are not distinguished; a zero divisor counts
    as +0, which is what a sum of squares and its square root produce. *)
Inductive xreal :=
| Fin (x : R)
| PInf
| NInf
| NaN.

Definition xopp (a : xreal) : xreal :=
  match a with
  | Fin x => Fin (- x)%R
  | PInf => NInf
  | NInf => PInf
  | NaN => NaN
  end.

Definition xadd (a b : xreal) : xreal :=
  match a, b with
  | NaN, _ | _, NaN => NaN
  | PInf, NInf | NInf, PInf => NaN
  | PInf, _ | _, PInf => PInf
  | NInf, _ | _, NInf => NInf
  | Fin x, Fin y => Fin (x + y)%R
  end.

Definition xsub (a b : xreal) : xreal := xadd a (xopp b).

(** The sign of a real: +1, 0 or -1. *)
Definition Rsign (x : R) : Z :=
  match total_order_T x 0 with
  | inleft (left _) => -1
  | inleft (right _) => 0
  | inright _ => 1
  end.

Definition xinf_of_sign (s : Z) : xreal :=
  if s =? 0 then NaN else if 0 <? s then PInf else NInf.

Definition xsign (a : xreal) : option Z :=
  match a with
  | Fin x => Some (Rsign x)
  | PInf => Some 1
  | NInf => Some (-1)
  | NaN => None
  end.

Definition xmul (a b : xreal) : xreal :=
  match a, b with
  | Fin x, Fin y => Fin (x * y)%R
  | _, _ =>
      match xsign a, xsign b with
      | Some s, Some t => xinf_of_sign (s * t)   (* inf * 0 = NaN *)
      | _, _ => NaN
      end
  end.

Definition xdiv (a b : xreal) : xreal :=
  match a, b with
  | NaN, _ | _, NaN => NaN
  | Fin x, Fin y =>
      if decide (Rsign y = 0) then xinf_of_sign (Rsign x)   (* x/0: inf, 0/0: NaN *)
      else Fin (x / y)%R
  | Fin _, _ => Fin 0%R
  | _, Fin y => xinf_of_sign (match xsign a with Some s => s | None => 0 end
                              * (if decide (Rsign y = 0) then 1 else Rsign y))
  | _, _ => NaN                                           (* inf/inf *)
  end.

Definition xsqrt (a : xreal) : xreal :=
  match a with
  | Fin x => if decide (Rsign x = -1) then NaN else Fin (R_sqrt.sqrt x)
  | PInf => PInf
  | NInf => NaN
  | NaN => NaN
  end.

Definition xreal_numeric : Numeric xreal := {|
  fadd := xadd;
  fsub := xsub;
  fmul := xmul;
  fdiv := xdiv;
  fsqrt := xsqrt;
  of_int := fun z => Fin (IZR z)
|}.

Definition is_finite (a : xreal) : Prop :=
  match a with Fin _ => True | _ => False end.

(** ** numpy arrays and Python built-ins *)

(** Python's [range(start, stop, step)]; a zero step raises ValueError. *)
Definition range_len (start stop step : Z) : Z :=
  if 0 <? step then (if start <? stop then (stop - start - 1) / step + 1 else 0)
  else (if stop <? start then (start - stop - 1) / (- step) + 1 else 0).

Definition py_range (start stop step : Z) : result (list Z) :=
  if step =? 0 then Raise ValueError
  else Ok (map (fun k : nat => start + Z.of_nat k * step)
             (seq 0 (Z.to_nat (range_len start stop step)))).

(** The bounds of the slice [a[i0:i1]] of an array of length [len]: a
    negative index counts from the end, and both are clipped to the array. *)
Definition slice_index (len : nat) (i : Z) : nat :=
  Z.to_nat (Z.min (Z.max (if i <? 0 then i + Z.of_nat len else i) 0) (Z.of_nat len)).

Definition getslice {A} (l : list A) (i0 i1 : Z) : list A :=
  let a := slice_index (length l) i0 in
  let b := slice_index (length l) i1 in
  take (b - a)%nat (drop a l).

(** [a[i0:i1] = v] on a one-dimensional array: [v] has the length of the
    slice, or length one and is broadcast; anything else is a ValueError. *)
Definition setslice {A} (l : list A) (i0 i1 : Z) (v : list A) : result (list A) :=
  let a := slice_index (length l) i0 in
  let b := slice_index (length l) i1 in
  let n := (b - a)%nat in
  if decide (length v = n) then Ok (take a l ++ v ++ drop (a + n)%nat l)
  else match v with
       | [x] => Ok (take a l ++ replicate n x ++ drop (a + n)%nat l)
       | _ => Raise ValueError
       end.

(** Element-wise combination of two one-dimensional operands under numpy's
    broadcasting rule: equal lengths, or one of them of length one. *)
Definition broadcast2 {A B C} (f : A -> B -> C) (a : list A) (b : list B)
  : result (list C) :=
  if decide (length a = length b) then Ok (zip_with f a b)
  else match a, b with
       | [x], _ => Ok (map (f x) b)
       | _, [y] => Ok (map (fun x => f x y) a)
       | _, _ => Raise ValueError
       end.

(** The results of a list of fallible computations, or the first error. *)
Fixpoint collect {A} (l : list (result A)) : result (list A) :=
  match l with
  | [] => Ok []
  | r :: rest =>
      match r with
      | Raise e => Raise e
      | Ok a => match collect rest with
                | Raise e => Raise e
                | Ok l' => Ok (a :: l')
                end
      end
  end.

(** [a.reshape(nx, ny, nz)]: at most one dimension may be -1 and is then
    inferred; otherwise the product of the dimensions must be the size. *)
Record ndarray3 (F : Type) := {
  shape : Z * Z * Z;
  flat : list F            (* C order: first axis outermost *)
}.
Arguments shape {F} _.
Arguments flat {F} _.

Definition reshape {F} (a : list F) (nx ny nz : Z) : result (ndarray3 F) :=
  let size := Z.of_nat (length a) in
  if (nx <? -1) || (ny <? -1) || (nz <? -1) then Raise ValueError
  else match nx =? -1, ny =? -1, nz =? -1 with
       | false, false, false =>
           if nx * ny * nz =? size then Ok {| shape := (nx, ny, nz); flat := a |}
           else Raise ValueError
       | true, false, false =>
           if (ny * nz =? 0) || negb (size mod (ny * nz) =? 0) then Raise ValueError
           else Ok {| shape := (size / (ny * nz), ny, nz); flat := a |}
       | false, true, false =>
           if (nx * nz =? 0) || negb (size mod (nx * nz) =? 0) then Raise ValueError
           else Ok {| shape := (nx, size / (nx * nz), nz); flat := a |}
       | false, false, true =>
           if (nx * ny =? 0) || negb (size mod (nx * ny) =? 0) then Raise ValueError
           else Ok {| shape := (nx, ny, size / (nx * ny)); flat := a |}
       | _, _, _ => Raise ValueError
       end.

Section Cubegen.

Context {F : Type} `{Numeric F}.

Definition matrix := list (list F).

(** [numpy.einsum('ij,ij', a, b)]: the sum of the element-wise products,
    accumulated from zero in row-major order, with broadcasting of rows and
    of columns. *)
Definition einsum_ij_ij (a b : matrix) : result F :=
  match broadcast2 (fun ra rb : list F => broadcast2 fmul ra rb) a b with
  | Raise e => Raise e
  | Ok rows =>
      match collect rows with
      | Raise e => Raise e
      | Ok prods => Ok (foldl fadd (of_int 0) (concat prods))
      end
  end.

(** A point of space, one row of an (n, 3) coordinate array. *)
Record xyz := { cx : F; cy : F; cz : F }.

(** [r - coords] for a length-3 array [r] and an (n, 3) array [coords]. *)
Definition sub_rows (r : xyz) (coords : list xyz) : list xyz :=
  map (fun p => {| cx := fsub (cx r) (cx p);
                   cy := fsub (cy r) (cy p);
                   cz := fsub (cz r) (cz p) |}) coords.

(** [numpy.einsum('xi,xi->x', a, b)]: the dot product of matching rows. *)
Definition einsum_xi_xi_x (a b : list xyz) : list F :=
  zip_with (fun p q => fadd (fadd (fmul (cx p) (cx q)) (fmul (cy p) (cy q)))
                            (fmul (cz p) (cz q))) a b.

(** ** The molecule *)

(** What [mep] and [density] use of a [gto.Mole]: the atoms (charge and
    position), the basis (opaque here) and the origin of the rinv operator,
    which lives in the mutable [_env] array of the object. *)
Context {Basis : Type}.

Record Mole := {
  atoms : list (Z * xyz);
  basis : Basis;
  rinv_orig : xyz
}.

(** Modelled from the spec: [Mole.natm], [Mole.atom_coord] and
    [Mole.atom_charge] are not under src/; the molecule "exposes atom count,
    each atom's position and nuclear charge".  An index outside the atoms
    raises IndexError. *)
Definition natm (mol : Mole) : Z := Z.of_nat (length (atoms mol)).

Definition atom_of (mol : Mole) (i : Z) : result (Z * xyz) :=
  if i <? 0 then Raise IndexError
  else match atoms mol !! Z.to_nat i with
       | Some a => Ok a
       | None => Raise IndexError
       end.

Definition atom_coord (mol : Mole) (i : Z) : result xyz :=
  match atom_of mol i with Ok a => Ok (snd a) | Raise e => Raise e end.

Definition atom_charge (mol : Mole) (i : Z) : result Z :=
  match atom_of mol i with Ok a => Ok (fst a) | Raise e => Raise e end.

(** Modelled from the spec: [Mole.set_rinv_orig_] is not under src/; it
    sets the origin of the integral engine to [p] in place and changes
    nothing else ("a transient origin parameter used during integral
    evaluation"). *)
Definition set_rinv_orig_ (mol : Mole) (p : xyz) : Mole :=
  {| atoms := atoms mol; basis := basis mol; rinv_orig := p |}.

(** ** The external numerics *)

Inductive axis := AxisX | AxisY | AxisZ.

(** The capabilities of the numerics library that this file calls and that
    are not under src/, each taken as a parameter:
    - [cint1e_rinv_sph mol]: the matrix [mol.intor('cint1e_rinv_sph')], which
      depends on the molecule and on its current rinv origin;
    - [ao_at mol p]: the values of all basis functions at the point [p];
    - [rho_at mol ao dm]: the contraction of the basis-function values at
      one point with the density matrix;
    - [axis_point mol ax n k]: the [k]-th sample of the grid along [ax] when
      that axis is divided in [n] (the box and margin policy of the grid);
    - [fresh_cell i]: what [numpy.empty] leaves in cell [i]. *)
Class Engine := {
  cint1e_rinv_sph : Mole -> matrix;
  ao_at : Mole -> xyz -> list F;
  rho_at : Mole -> list F -> matrix -> F;
  axis_point : Mole -> axis -> Z -> Z -> F;
  fresh_cell : nat -> F
}.

Context `{Engine}.

(** Modelled from the spec: [Mole.intor] is not under src/;
    [mol.intor('cint1e_rinv_sph')] is the "one-electron integral evaluation
    with a movable origin", read from the molecule as it is at the call. *)
Definition intor (mol : Mole) : matrix := cint1e_rinv_sph mol.

(** Modelled from the spec: [numint.eval_ao] is not under src/; "evaluate
    all basis functions at the chunk's coordinates", one row per point.  The
    [out] buffer only provides the memory of the result. *)
Definition eval_ao (mol : Mole) (coords : list xyz) (out : option matrix) : matrix :=
  map (ao_at mol) coords.

(** Modelled from the spec: [numint.eval_rho] is not under src/; "contract
    with the density matrix to obtain the density value per point". *)
Definition eval_rho (mol : Mole) (ao : matrix) (dm : matrix) : list F :=
  map (fun row => rho_at mol row dm) ao.

Definition numpy_empty (n : Z) : result (list F) :=
  if n <? 0 then Raise ValueError else Ok (map fresh_cell (seq 0 (Z.to_nat n))).

(** Modelled from the spec: [gen_grid.prange] is not under src/; it yields
    the consecutive chunks [(i, min(i + step, end))] for [i] in
    [range(start, end, step)], "bounded-size chunks" that "must not overlap
    and together cover exactly [0, ngrid)". *)
Definition prange (start stop step : Z) : result (list (Z * Z)) :=
  match py_range start stop step with
  | Raise e => Raise e
  | Ok r => Ok (map (fun i => (i, Z.min (i + step) stop)) r)
  end.

(** ** The cube grid and the cube file *)

Record CubeFile := {
  cube_comment : string;
  cube_atoms : list (Z * xyz);
  cube_shape : Z * Z * Z;
  cube_data : list F        (* x outermost, z innermost *)
}.

(** Modelled from the spec: class [cube_c] of pyscf/tools/m_cube.py is not
    under src/.  Its constructor "rejects nx/ny/nz <= 0"; [get_coords] is the
    "ordered list of ngrid = nx*ny*nz coordinates" with x outermost and z
    innermost; [get_ngrids] is nx*ny*nz; [write] "creates/overwrites the
    named output file" with the molecule, the grid and the field. *)
Record cube_c := {
  cc_mol : Mole;
  cc_nx : Z;
  cc_ny : Z;
  cc_nz : Z
}.

(** Modelled from the spec: the constructor [cube_c(mol, nx, ny, nz)], "no
    failure modes beyond invalid dimension inputs (reject nx/ny/nz <= 0)". *)
Definition cube_c_init (mol : Mole) (nx ny nz : Z) : result cube_c :=
  if (nx <=? 0) || (ny <=? 0) || (nz <=? 0) then Raise ValueError
  else Ok {| cc_mol := mol; cc_nx := nx; cc_ny := ny; cc_nz := nz |}.

(** Modelled from the spec: the [n] samples of one axis of the box. *)
Definition axis_samples (mol : Mole) (ax : axis) (n : Z) : list F :=
  map (fun k : nat => axis_point mol ax n (Z.of_nat k)) (seq 0 (Z.to_nat n)).

(** Modelled from the spec: [cube_c.get_coords], the three axes iterated
    with "z innermost, y middle, x outermost". *)
Definition get_coords (cc : cube_c) : list xyz :=
  x ← axis_samples (cc_mol cc) AxisX (cc_nx cc);
  y ← axis_samples (cc_mol cc) AxisY (cc_ny cc);
  z ← axis_samples (cc_mol cc) AxisZ (cc_nz cc);
  [ {| cx := x; cy := y; cz := z |} ].

(** Modelled from the spec: [cube_c.get_ngrids], "ngrid = nx*ny*nz". *)
Definition get_ngrids (cc : cube_c) : Z := cc_nx cc * cc_ny cc * cc_nz cc.

Definition filesys := gmap string CubeFile.

(** Modelled from the spec: [cube_c.write] "creates/overwrites the named
    output file"; the file is kept as its contents (comment, atoms, grid
    shape, values in x-outer, z-inner order), not as formatted text, and the
    I/O failures of the spec are not modelled. *)
Definition cube_write (cc : cube_c) (field : ndarray3 F) (fname : string)
    (comment : string) (fs : filesys) : filesys :=
  <[ fname := {| cube_comment := comment;
                 cube_atoms := atoms (cc_mol cc);
                 cube_shape := shape field;
                 cube_data := flat field |} ]> fs.

(** ** density (lines 16-44) *)

(** The body of the loop of lines 39-41, over the chunks that [prange]
    yields: [ao] is the buffer handed back to [eval_ao], [rho] the output
    array that the slice assignment updates in place. *)
Fixpoint density_loop (mol : Mole) (dm : matrix) (coords : list xyz)
    (chunks : list (Z * Z)) (rho : list F) (ao : option matrix) : result (list F) :=
  match chunks with
  | [] => Ok rho
  | (ip0, ip1) :: rest =>
      let ao' := eval_ao mol (getslice coords ip0 ip1) ao in
      match setslice rho ip0 ip1 (eval_rho mol ao' dm) with
      | Raise e => Raise e
      | Ok rho' => density_loop mol dm coords rest rho' (Some ao')
      end
  end.

(** Lines 37-41 for a given block size (line 36 fixes it). *)
Definition density_rho (mol : Mole) (dm : matrix) (coords : list xyz)
    (ngrids blksize : Z) : result (list F) :=
  match numpy_empty ngrids with
  | Raise e => Raise e
  | Ok rho =>
      match prange 0 ngrids blksize with
      | Raise e => Raise e
      | Ok chunks => density_loop mol dm coords chunks rho None
      end
  end.

(** Line 36: the block size of the loop. *)
Definition density_blksize (ngrids : Z) : Z := Z.min 8000 ngrids.

(** Lines 42-44: reshape, then write. *)
Definition density_finish (cc : cube_c) (rho : list F) (outfile : string)
    (fs : filesys) : result unit * filesys :=
  match reshape rho (cc_nx cc) (cc_ny cc) (cc_nz cc) with
  | Raise e => (Raise e, fs)
  | Ok rho3 =>
      (Ok tt, cube_write cc rho3 outfile "Electron density in real space (e/Bohr^3)" fs)
  end.

Definition density (mol : Mole) (outfile : string) (dm : matrix)
    (nx ny nz : option Z) (fs : filesys) : result unit * filesys :=
  let nx := default 80 nx in
  let ny := default 80 ny in
  let nz := default 80 nz in
  match cube_c_init mol nx ny nz with
  | Raise e => (Raise e, fs)
  | Ok cc =>
      let coords := get_coords cc in
      let ngrids := get_ngrids cc in
      let blksize := density_blksize ngrids in
      match density_rho mol dm coords ngrids blksize with
      | Raise e => (Raise e, fs)
      | Ok rho => density_finish cc rho outfile fs
      end
  end.

(** ** mep (lines 47-85) *)

(** [Vnuc] starts as the Python int 0 and becomes an array at the first
    [+=]. *)
Inductive pyval :=
| PyInt (z : Z)
| NdArray (a : list F).

Definition py_iadd (v : pyval) (x : list F) : result pyval :=
  match v with
  | PyInt z => Ok (NdArray (map (fadd (of_int z)) x))
  | NdArray a =>                 (* in place: x must broadcast to a's shape *)
      if decide (length x = length a) then Ok (NdArray (zip_with fadd a x))
      else match x with
           | [y] => Ok (NdArray (map (fun u => fadd u y) a))
           | _ => Raise ValueError
           end
  end.

(** [Vnuc - Vele] with [Vele] a Python list: an int minus a list is a
    TypeError, an array minus a list converts the list. *)
Definition py_sub (v : pyval) (l : list F) : result (list F) :=
  match v with
  | PyInt _ => Raise TypeError
  | NdArray a => broadcast2 fsub a l
  end.

(** [Z / numpy.einsum('xi,xi->x', rp, rp)**.5] for one atom, at every point. *)
Definition coulomb_row (Z : Z) (r : xyz) (coords : list xyz) : list F :=
  let rp := sub_rows r coords in
  map (fun s => fdiv (of_int Z) (fsqrt s)) (einsum_xi_xi_x rp rp).

(** Lines 69-72, one turn of the loop over the atoms. *)
Definition Vnuc_step (mol : Mole) (coords : list xyz) (Vnuc : pyval) (i : Z)
  : result pyval :=
  match atom_coord mol i with
  | Raise e => Raise e
  | Ok r =>
      match atom_charge mol i with
      | Raise e => Raise e
      | Ok Z => py_iadd Vnuc (coulomb_row Z r coords)
      end
  end.

Fixpoint Vnuc_loop (mol : Mole) (coords : list xyz) (idx : list Z) (Vnuc : pyval)
  : result pyval :=
  match idx with
  | [] => Ok Vnuc
  | i :: rest =>
      match Vnuc_step mol coords Vnuc i with
      | Raise e => Raise e
      | Ok Vnuc' => Vnuc_loop mol coords rest Vnuc'
      end
  end.

(** [range(n)]. *)
Definition range1 (n : Z) : list Z := map Z.of_nat (seq 0 (Z.to_nat n)).

(** Lines 75-78: the molecule is the object that [set_rinv_orig_] mutates,
    so the loop threads it and returns it. *)
Fixpoint Vele_loop (mol : Mole) (dm : matrix) (coords : list xyz) (Vele : list F)
  : result (list F) * Mole :=
  match coords with
  | [] => (Ok Vele, mol)
  | p :: rest =>
      let mol1 := set_rinv_orig_ mol p in
      match einsum_ij_ij (intor mol1) dm with
      | Raise e => (Raise e, mol1)
      | Ok v => Vele_loop mol1 dm rest (Vele ++ [v])
      end
  end.

(** Lines 66-82: the flat array of potential values and the molecule as the
    loops leave it. *)
Definition mep_values (mol : Mole) (dm : matrix) (coords : list xyz)
  : result (list F) * Mole :=
  match Vnuc_loop mol coords (range1 (natm mol)) (PyInt 0) with
  | Raise e => (Raise e, mol)
  | Ok Vnuc =>
      match Vele_loop mol dm coords [] with
      | (Raise e, mol') => (Raise e, mol')
      | (Ok Vele, mol') => (py_sub Vnuc Vele, mol')
      end
  end.

(** Lines 83-85: reshape with the caller's nx, ny, nz, then write. *)
Definition mep_finish (cc : cube_c) (MEP : list F) (nx ny nz : Z)
    (outfile : string) (fs : filesys) : result unit * filesys :=
  match reshape MEP nx ny nz with
  | Raise e => (Raise e, fs)
  | Ok MEP3 =>
      (Ok tt, cube_write cc MEP3 outfile "Molecular electrostatic potential in real space" fs)
  end.

(** [cc] keeps a reference to the molecule; [write] reads only its atoms,
    which [set_rinv_orig_] leaves alone. *)
Definition mep (mol : Mole) (outfile : string) (dm : matrix)
    (nx ny nz : option Z) (fs : filesys) : result unit * Mole * filesys :=
  let nx := default 80 nx in
  let ny := default 80 ny in
  let nz := default 80 nz in
  match cube_c_init mol nx ny nz with
  | Raise e => (Raise e, mol, fs)
  | Ok cc =>
      let coords := get_coords cc in
      match mep_values mol dm coords with
      | (Raise e, mol') => (Raise e, mol', fs)
      | (Ok MEP, mol') =>
          let '(r, fs') := mep_finish cc MEP nx ny nz outfile fs in
          (r, mol', fs')
      end
  end.

(** ** Reference definitions for the statements *)

(** The Coulomb term of one atom at one point: Z / |r - p|. *)
Definition coulomb (Z : Z) (r p : xyz) : F :=
  let dx := fsub (cx r) (cx p) in
  let dy := fsub (cy r) (cy p) in
  let dz := fsub (cz r) (cz p) in
  fdiv (of_int Z) (fsqrt (fadd (fadd (fmul dx dx) (fmul dy dy)) (fmul dz dz))).

(** The nuclear term at [p]: the sum of the Coulomb terms over the atoms,
    in the order of the atoms, from the initial 0. *)
Definition nuclear_term (mol : Mole) (p : xyz) : F :=
  foldl (fun acc a => fadd acc (coulomb (fst a) (snd a) p)) (of_int 0) (atoms mol).

(** The electronic term at [p]: the rinv matrix with the origin at [p],
    contracted with the density matrix. *)
Definition electronic_term (mol : Mole) (dm : matrix) (p : xyz) : result F :=
  einsum_ij_ij (intor (set_rinv_orig_ mol p)) dm.

(** The density at one point. *)
Definition density_at (mol : Mole) (dm : matrix) (p : xyz) : F :=
  rho_at mol (ao_at mol p) dm.

(** The chunks [(a0,a1), (a1,a2), ..., (ak,n)] that tile [a0, n) with
    pieces of length between 1 and [blk]. *)
Inductive tiling (blk n : Z) : Z -> list (Z * Z) -> Prop :=
| tiling_nil : tiling blk n n []
| tiling_cons a b rest :
    a < b -> b <= n -> b - a <= blk ->
    tiling blk n b rest -> tiling blk n a ((a, b) :: rest).

(** The indices that a chunk covers. *)
Definition chunk_indices (c : Z * Z) : list Z :=
  map (fun k : nat => fst c + Z.of_nat k) (seq 0 (Z.to_nat (snd c - fst c))).

End Cubegen.

(** ** Concrete carriers and a small engine to run the embedding *)

(** Points with finite real coordinates, in the [xreal] carrier. *)
Definition Rxyz : Type := R * R * R.

Definition inject (p : Rxyz) : @xyz xreal :=
  let '(x, y, z) := p in {| cx := Fin x; cy := Fin y; cz := Fin z |}.

(** The squared Euclidean distance and the distance |r - p|. *)
Definition sqdist (r p : Rxyz) : R :=
  let '(rx, ry, rz) := r in
  let '(px, py, pz) := p in
  ((rx - px) * (rx - px) + (ry - py) * (ry - py) + (rz - pz) * (rz - pz))%R.

Definition dist (r p : Rxyz) : R := R_sqrt.sqrt (sqdist r p).

Definition inject_atoms (l : list (Z * Rxyz)) : list (Z * @xyz xreal) :=
  map (fun a => (fst a, inject (snd a))) l.

(** The sum over the atoms of Z_i / |r_i - p|, as a real number. *)
Definition coulomb_sum (l : list (Z * Rxyz)) (p : Rxyz) : R :=
  foldl (fun acc a => (acc + IZR (fst a) / dist (snd a) p)%R) (IZR 0) l.

(** One s-like basis function: the rinv matrix is 1 x 1 and decays with the
    distance of the origin from the point (0,0,0); the grid samples the
    integer points 0, 1, ..., n-1 along each axis. *)
Definition toy64 : @Engine float unit := {|
  cint1e_rinv_sph := fun mol =>
    let o := rinv_orig mol in
    [[ (1 / (1 + (cx o * cx o + cy o * cy o + cz o * cz o)))%float ]];
  ao_at := fun mol p => [ (1 / (1 + cx p * cx p))%float ];
  rho_at := fun mol row dm =>
    match row, dm with
    | [a], [[d]] => (a * d * a)%float
    | _, _ => nan
    end;
  axis_point := fun mol ax n k => float_of_Z k;
  fresh_cell := fun i => nan
|}.

Definition toyR : @Engine xreal unit := {|
  cint1e_rinv_sph := fun mol => [[ Fin 1 ]];
  ao_at := fun mol p => [ Fin 1 ];
  rho_at := fun mol row dm => Fin 1;
  axis_point := fun mol ax n k => Fin (IZR k);
  fresh_cell := fun i => NaN
|}.

Definition origin64 : @xyz float := {| cx := 0%float; cy := 0%float; cz := 0%float |}.

(** An oxygen nucleus at the origin and a hydrogen nucleus at (1, 0, 0). *)
Definition OH64 : @Mole float unit := {|
  atoms := [ (8, origin64); (1, {| cx := 1%float; cy := 0%float; cz := 0%float |}) ];
  basis := tt;
  rinv_orig := origin64
|}.

Definition OHR : @Mole xreal unit := {|
  atoms := inject_atoms [ (8, (0, 0, 0)%R); (1, (1, 0, 0)%R) ];
  basis := tt;
  rinv_orig := inject (0, 0, 0)%R
|}.

Definition dm64 : @matrix float := [[ 2%float ]].

(** The grid of [n] points (0,0,0), (1,0,0), ..., (n-1,0,0) around [OH64]. *)
Definition line64 (n : Z) : list (@xyz float) :=
  @get_coords float unit toy64 {| cc_mol := OH64; cc_nx := n; cc_ny := 1; cc_nz := 1 |}.

(** ** binary64 values by class, and inputs for the float64 statements *)

(** Classes of binary64 values, read off their specification [Prim2SF]:
    +0 or NaN; an infinity or NaN; not negative (sign bit clear, or NaN). *)
Definition SF_zero_or_nan (s : spec_float) : Prop :=
  s = S754_zero false \/ s = S754_nan.

Definition SF_nonfinite (s : spec_float) : Prop :=
  match s with S754_infinity _ | S754_nan => True | _ => False end.

Definition SF_not_negative (s : spec_float) : Prop :=
  match s with
  | S754_zero b | S754_infinity b | S754_finite b _ _ => b = false
  | S754_nan => True
  end.

(** The divisor of line 72 for an atom at [r] and a point [p]:
    [numpy.einsum('xi,xi->x', rp, rp)**.5] with [rp = r - p]. *)
Definition divisor {F : Type} {N : Numeric F} (r p : @xyz F) : F :=
  let dx := fsub (cx r) (cx p) in
  let dy := fsub (cy r) (cy p) in
  let dz := fsub (cz r) (cz p) in
  fsqrt (fadd (fadd (fmul dx dx) (fmul dy dy)) (fmul dz dz)).

(** The point (d, 0, 0) and a molecule of one atom of charge [Z] at the
    origin, in float64. *)
Definition on_x_axis (d : float) : @xyz float :=
  {| cx := d; cy := 0%float; cz := 0%float |}.

Definition single_atom64 (Z : Z) : @Mole float unit :=
  {| atoms := [(Z, origin64)]; basis := tt; rinv_orig := origin64 |}.

(** The distances m * 2^k, and the test that squaring and taking the root
    gives the distance back. *)
Definition scaled (m k : Z) : float := Z.ldexp (float_of_Z m) k.

Definition sqrt_square_ok (d : float) : bool :=
  PrimFloat.Leibniz.eqb (PrimFloat.sqrt (PrimFloat.mul d d)) d.

Definition Zrange (lo : Z) (n : nat) : list Z :=
  map (fun i : nat => lo + Z.of_nat i) (seq 0 n).

(** A test on every pair of two lists. *)
Definition all_pairs {A B} (f : A -> B -> bool) (la : list A) (lb : list B) : bool :=
  forallb (fun a => forallb (f a) lb) la.

(** Two basis functions: the rinv matrix is 2 x 2, so that a density matrix
    of another shape makes the contraction raise. *)
Definition duo64 : @Engine float unit := {|
  cint1e_rinv_sph := fun mol =>
    let o := rinv_orig mol in
    let a := (1 / (1 + (cx o * cx o + cy o * cy o + cz o * cz o)))%float in
    [[ a; 0%float ]; [ 0%float; a ]];
  ao_at := fun mol p => [ (1 / (1 + cx p * cx p))%float; 1%float ];
  rho_at := fun mol row dm => nan;
  axis_point := fun mol ax n k => float_of_Z k;
  fresh_cell := fun i => nan
|}.

(** A 3 x 3 density matrix, which does not fit two basis functions. *)
Definition dm64_3x3 : @matrix float :=
  [[ 1%float; 0%float; 0%float ]; [ 0%float; 1%float; 0%float ];
   [ 0%float; 0%float; 1%float ]].

(** A molecule without atoms. *)
Definition empty64 : @Mole float unit :=
  {| atoms := []; basis := tt; rinv_orig := origin64 |}.

(** The chunks of [prange], written with the index of the chunk. *)
Definition chunks_from (blk n a : Z) (m : nat) : list (Z * Z) :=
  map (fun i => (i, Z.min (i + blk) n))
      (map (fun k : nat => a + Z.of_nat k * blk) (seq 0 m)).

(** * Properties *)

(** ** Lists, slices and ranges *)

Lemma slice_index_inside (len : nat) (i : Z) :
  0 <= i <= Z.of_nat len -> slice_index len i = Z.to_nat i.
Proof.
  intros Hi. unfold slice_index.
  destruct (Z.ltb_spec i 0) as [Hneg | _]; [lia |].
  f_equal. lia.
Qed.

Lemma getslice_inside {A} (l : list A) (a b : Z) :
  0 <= a <= b -> b <= Z.of_nat (length l) ->
  getslice l a b = take (Z.to_nat (b - a)) (drop (Z.to_nat a) l).
Proof.
  intros Hab Hb. unfold getslice.
  rewrite !slice_index_inside by lia.
  f_equal. lia.
Qed.

Lemma setslice_inside {A} (l v : list A) (a b : Z) :
  0 <= a <= b -> b <= Z.of_nat (length l) ->
  length v = Z.to_nat (b - a) ->
  setslice l a b v = Ok (take (Z.to_nat a) l ++ v ++ drop (Z.to_nat b) l).
Proof.
  intros Hab Hb Hv. unfold setslice.
  rewrite !slice_index_inside by lia.
  replace (Z.to_nat b - Z.to_nat a)%nat with (Z.to_nat (b - a)) by lia.
  destruct (decide (length v = Z.to_nat (b - a))) as [_ | Hne]; [| contradiction].
  replace (Z.to_nat a + Z.to_nat (b - a))%nat with (Z.to_nat b) by lia.
  reflexivity.
Qed.

Lemma zip_with_map_diag {A B C} (f : B -> B -> C) (g h : A -> B) (l : list A) :
  zip_with f (map g l) (map h l) = map (fun x => f (g x) (h x)) l.
Proof. induction l as [| x l IH]; simpl; [reflexivity | now rewrite IH]. Qed.

Lemma list_bind_length {A B} (f : A -> list B) (k : nat) (l : list A) :
  (forall x, length (f x) = k) -> length (l ≫= f) = (length l * k)%nat.
Proof.
  intros Hf. induction l as [| x l IH]; [reflexivity |].
  rewrite bind_cons, length_app, Hf, IH. simpl. lia.
Qed.

(** The length of a range with a positive step brackets the stop value. *)
Lemma range_len_bounds (a n blk : Z) :
  0 < blk -> a < n ->
  a + (range_len a n blk - 1) * blk < n <= a + range_len a n blk * blk.
Proof.
  intros Hblk Han. unfold range_len.
  destruct (Z.ltb_spec 0 blk) as [_ | ?]; [| lia].
  destruct (Z.ltb_spec a n) as [_ | ?]; [| lia].
  pose proof (Z.div_mod (n - a - 1) blk ltac:(lia)) as Hdm.
  pose proof (Z.mod_pos_bound (n - a - 1) blk Hblk) as Hmod.
  nia.
Qed.

Lemma range_len_empty (a n blk : Z) :
  0 < blk -> n <= a -> range_len a n blk = 0.
Proof.
  intros Hblk Han. unfold range_len.
  destruct (Z.ltb_spec 0 blk) as [_ | ?]; [| lia].
  destruct (Z.ltb_spec a n) as [? | _]; [lia | reflexivity].
Qed.

Lemma range_len_pos (a n blk : Z) :
  0 < blk -> a < n -> 0 < range_len a n blk.
Proof.
  intros Hblk Han. pose proof (range_len_bounds a n blk Hblk Han). nia.
Qed.

Lemma chunks_from_succ (blk n a : Z) (m : nat) :
  chunks_from blk n a (S m) = (a, Z.min (a + blk) n) :: chunks_from blk n (a + blk) m.
Proof.
  unfold chunks_from. simpl. f_equal; [f_equal; lia |].
  rewrite <- seq_shift, !map_map. apply map_ext. intros k.
  f_equal; [| f_equal]; lia.
Qed.

Lemma chunks_from_tiling (blk n : Z) (m : nat) :
  0 < blk ->
  forall a, a <= n ->
    (m = 0%nat -> a = n) ->
    (m <> 0%nat -> a + (Z.of_nat m - 1) * blk < n <= a + Z.of_nat m * blk) ->
    tiling blk n a (chunks_from blk n a m).
Proof.
  intros Hblk. induction m as [| m IH]; intros a Han H0 HS.
  - rewrite (H0 eq_refl). constructor.
  - rewrite chunks_from_succ.
    specialize (HS ltac:(lia)).
    destruct m as [| m'].
    + replace (Z.min (a + blk) n) with n by lia.
      constructor; [lia | lia | lia | constructor].
    + replace (Z.min (a + blk) n) with (a + blk) by nia.
      constructor; [lia | nia | lia |].
      apply IH; [nia | discriminate | intros _; nia].
Qed.

Lemma prange_tiling (blk n : Z) :
  0 < blk -> 0 <= n ->
  exists chunks, prange 0 n blk = Ok chunks /\ tiling blk n 0 chunks.
Proof.
  intros Hblk Hn. unfold prange, py_range.
  destruct (Z.eqb_spec blk 0) as [? | _]; [lia |].
  eexists. split; [reflexivity |].
  apply (chunks_from_tiling blk n (Z.to_nat (range_len 0 n blk)) Hblk 0 Hn).
  - intros Hlen. destruct (Z.eq_dec n 0) as [-> | Hne]; [reflexivity |].
    pose proof (range_len_pos 0 n blk Hblk ltac:(lia)). lia.
  - intros Hlen.
    assert (0 < n) as Hpos.
    { destruct (Z.eq_dec n 0) as [-> | ?]; [| lia].
      rewrite range_len_empty in Hlen by lia. contradiction. }
    pose proof (range_len_bounds 0 n blk Hblk Hpos).
    pose proof (range_len_pos 0 n blk Hblk Hpos).
    rewrite Z2Nat.id by lia. lia.
Qed.

Lemma tiling_start_le (blk n a : Z) (chunks : list (Z * Z)) :
  tiling blk n a chunks -> a <= n.
Proof. induction 1; lia. Qed.

Lemma tiling_bounds (blk n a : Z) (chunks : list (Z * Z)) :
  tiling blk n a chunks ->
  Forall (fun c => a <= fst c /\ fst c < snd c /\ snd c <= n /\ snd c - fst c <= blk) chunks.
Proof.
  induction 1 as [| a b rest Hab Hbn Hlen Hrest IH]; constructor.
  - simpl. lia.
  - eapply Forall_impl; [exact IH |]. simpl. intros c Hc. lia.
Qed.

Lemma seq_Z_app (a : Z) (m k : nat) :
  map (fun i : nat => a + Z.of_nat i) (seq 0 (m + k)) =
  map (fun i : nat => a + Z.of_nat i) (seq 0 m) ++
  map (fun i : nat => (a + Z.of_nat m) + Z.of_nat i) (seq 0 k).
Proof.
  rewrite seq_app, map_app. f_equal. simpl.
  rewrite <- (Nat.add_0_r m) at 1.
  rewrite <- (fmap_add_seq m 0 k).
  change (map ?f (?g <$> ?l)) with (map f (map g l)).
  rewrite map_map. apply map_ext. intros i. lia.
Qed.

(** The indices of the chunks of a tiling, chunk after chunk, are
    a, a+1, ..., n-1: each index of [a, n) once. *)
Lemma tiling_indices (blk n a : Z) (chunks : list (Z * Z)) :
  tiling blk n a chunks ->
  concat (map chunk_indices chunks) =
  map (fun k : nat => a + Z.of_nat k) (seq 0 (Z.to_nat (n - a))).
Proof.
  induction 1 as [| a b rest Hab Hbn Hlen Hrest IH].
  - rewrite Z.sub_diag. reflexivity.
  - simpl. rewrite IH. unfold chunk_indices. simpl.
    pose proof (tiling_start_le _ _ _ _ Hrest).
    replace (Z.to_nat (n - a)) with (Z.to_nat (b - a) + Z.to_nat (n - b))%nat by lia.
    rewrite seq_Z_app. f_equal.
    apply map_ext. intros i. lia.
Qed.

Lemma reshape_exact {A} (a : list A) (nx ny nz : Z) :
  0 <= nx -> 0 <= ny -> 0 <= nz ->
  Z.of_nat (length a) = nx * ny * nz ->
  reshape a nx ny nz = Ok {| shape := (nx, ny, nz); flat := a |}.
Proof.
  intros Hx Hy Hz Hlen. unfold reshape.
  destruct (Z.ltb_spec nx (-1)); [lia |].
  destruct (Z.ltb_spec ny (-1)); [lia |].
  destruct (Z.ltb_spec nz (-1)); [lia |].
  destruct (Z.eqb_spec nx (-1)); [lia |].
  destruct (Z.eqb_spec ny (-1)); [lia |].
  destruct (Z.eqb_spec nz (-1)); [lia |].
  simpl. rewrite Hlen, Z.eqb_refl. reflexivity.
Qed.

Lemma reshape_mismatch {A} (a : list A) (nx ny nz : Z) :
  0 <= nx -> 0 <= ny -> 0 <= nz ->
  Z.of_nat (length a) <> nx * ny * nz ->
  reshape a nx ny nz = Raise ValueError.
Proof.
  intros Hx Hy Hz Hlen. unfold reshape.
  destruct (Z.ltb_spec nx (-1)); [lia |].
  destruct (Z.ltb_spec ny (-1)); [lia |].
  destruct (Z.ltb_spec nz (-1)); [lia |].
  destruct (Z.eqb_spec nx (-1)); [lia |].
  destruct (Z.eqb_spec ny (-1)); [lia |].
  destruct (Z.eqb_spec nz (-1)); [lia |].
  simpl. destruct (Z.eqb_spec (nx * ny * nz) (Z.of_nat (length a))); [lia | reflexivity].
Qed.

(** ** The grid, and the density path *)

Section Density.

Context {F : Type} {Basis : Type} {E : @Engine F Basis}.
Implicit Types (mol : @Mole F Basis) (dm : @matrix F) (coords : list (@xyz F)).

Lemma cube_c_init_positive mol (nx ny nz : Z) :
  0 < nx -> 0 < ny -> 0 < nz ->
  cube_c_init mol nx ny nz =
  Ok {| cc_mol := mol; cc_nx := nx; cc_ny := ny; cc_nz := nz |}.
Proof.
  intros Hx Hy Hz. unfold cube_c_init.
  destruct (Z.leb_spec nx 0); [lia |].
  destruct (Z.leb_spec ny 0); [lia |].
  destruct (Z.leb_spec nz 0); [lia |].
  reflexivity.
Qed.

Lemma cube_c_init_rejects mol (nx ny nz : Z) :
  nx <= 0 \/ ny <= 0 \/ nz <= 0 ->
  cube_c_init mol nx ny nz = Raise ValueError.
Proof.
  intros Hbad. unfold cube_c_init.
  destruct (Z.leb_spec nx 0), (Z.leb_spec ny 0), (Z.leb_spec nz 0);
    simpl; try reflexivity; lia.
Qed.

Lemma cube_c_init_inv mol (nx ny nz : Z) (cc : cube_c) :
  cube_c_init mol nx ny nz = Ok cc ->
  0 < nx /\ 0 < ny /\ 0 < nz /\
  cc = {| cc_mol := mol; cc_nx := nx; cc_ny := ny; cc_nz := nz |}.
Proof.
  unfold cube_c_init.
  destruct (Z.leb_spec nx 0), (Z.leb_spec ny 0), (Z.leb_spec nz 0);
    simpl; intros Hcc; try discriminate.
  injection Hcc as <-. repeat split; lia.
Qed.

Lemma axis_samples_length mol (ax : axis) (n : Z) :
  length (axis_samples mol ax n) = Z.to_nat n.
Proof. unfold axis_samples. now rewrite length_map, length_seq. Qed.

Lemma get_coords_length (cc : @cube_c F Basis) :
  length (get_coords cc) =
  (Z.to_nat (cc_nx cc) * (Z.to_nat (cc_ny cc) * Z.to_nat (cc_nz cc)))%nat.
Proof.
  unfold get_coords.
  rewrite (list_bind_length _ (Z.to_nat (cc_ny cc) * Z.to_nat (cc_nz cc))).
  - now rewrite axis_samples_length.
  - intros x. rewrite (list_bind_length _ (Z.to_nat (cc_nz cc))).
    + now rewrite axis_samples_length.
    + intros y. rewrite (list_bind_length _ 1).
      * rewrite axis_samples_length. lia.
      * reflexivity.
Qed.

(** The grid has as many points as [get_ngrids] says. *)
Lemma get_coords_ngrids (cc : @cube_c F Basis) :
  0 <= cc_nx cc -> 0 <= cc_ny cc -> 0 <= cc_nz cc ->
  Z.of_nat (length (get_coords cc)) = get_ngrids cc.
Proof.
  intros Hx Hy Hz. rewrite get_coords_length. unfold get_ngrids.
  rewrite !Nat2Z.inj_mul, !Z2Nat.id by lia. lia.
Qed.

(** A batch is evaluated point by point. *)
Lemma eval_batch mol dm coords (out : option matrix) :
  eval_rho mol (eval_ao mol coords out) dm = map (density_at mol dm) coords.
Proof. unfold eval_rho, eval_ao. rewrite map_map. reflexivity. Qed.

(** The loop invariant of lines 39-41: when the chunks tile [a, n) and the
    first [a] cells of [rho] already hold the batch values, the loop ends
    with the batch values in every cell. *)
Lemma density_loop_tiling mol dm coords (blk : Z) (chunks : list (Z * Z)) (a : Z) :
  tiling blk (Z.of_nat (length coords)) a chunks ->
  forall (rho : list F) (ao : option matrix),
    0 <= a ->
    length rho = length coords ->
    take (Z.to_nat a) rho = take (Z.to_nat a) (map (density_at mol dm) coords) ->
    density_loop mol dm coords chunks rho ao = Ok (map (density_at mol dm) coords).
Proof.
  set (n := Z.of_nat (length coords)).
  set (target := map (density_at mol dm) coords).
  assert (length target = length coords) as Htarget by apply length_map.
  induction 1 as [| a b rest Hab Hbn Hlen Hrest IH]; intros rho ao Ha Hrho Hdone.
  - simpl. f_equal.
    rewrite <- (firstn_all rho), <- (firstn_all target).
    rewrite Hrho, Htarget. subst n. rewrite Nat2Z.id in Hdone. exact Hdone.
  - simpl. rewrite eval_batch.
    rewrite getslice_inside by (fold n; lia).
    rewrite setslice_inside.
    + apply IH.
      * lia.
      * rewrite !length_app, length_take, length_map, length_take, !length_drop. lia.
      * rewrite app_assoc, take_app_length'.
        2:{ rewrite length_app, length_take, length_map, length_take, length_drop. lia. }
        rewrite Hdone. subst target.
        rewrite firstn_map, <- map_app, take_take_drop, firstn_map.
        do 2 f_equal. lia.
    + lia.
    + lia.
    + rewrite length_map, length_take, length_drop. lia.
Qed.

Lemma numpy_empty_length (n : Z) :
  0 <= n ->
  exists rho : list F, numpy_empty n = Ok rho /\ length rho = Z.to_nat n.
Proof.
  intros Hn. unfold numpy_empty.
  destruct (Z.ltb_spec n 0); [lia |].
  eexists. split; [reflexivity |]. now rewrite length_map, length_seq.
Qed.

(** Lines 37-41 compute the batch values, whatever the block size. *)
Lemma density_rho_batch mol dm coords (blk : Z) :
  0 < blk ->
  density_rho mol dm coords (Z.of_nat (length coords)) blk =
  Ok (map (density_at mol dm) coords).
Proof.
  intros Hblk. unfold density_rho.
  destruct (numpy_empty_length (Z.of_nat (length coords)) ltac:(lia))
    as (rho & -> & Hrho).
  destruct (prange_tiling blk (Z.of_nat (length coords)) Hblk ltac:(lia))
    as (chunks & -> & Htile).
  eapply density_loop_tiling; [exact Htile | lia | lia | reflexivity].
Qed.

(** What [density] does on a valid grid. *)
Lemma density_run mol (outfile : string) dm (nx ny nz : Z) (fs : filesys) :
  0 < nx -> 0 < ny -> 0 < nz ->
  let cc := {| cc_mol := mol; cc_nx := nx; cc_ny := ny; cc_nz := nz |} in
  density mol outfile dm (Some nx) (Some ny) (Some nz) fs =
  (Ok tt,
   <[ outfile := {| cube_comment := "Electron density in real space (e/Bohr^3)";
                    cube_atoms := atoms mol;
                    cube_shape := (nx, ny, nz);
                    cube_data := map (density_at mol dm) (get_coords cc) |} ]> fs).
Proof.
  intros Hx Hy Hz cc. unfold density. simpl default.
  rewrite cube_c_init_positive by assumption. fold cc.
  assert (Z.of_nat (length (get_coords cc)) = get_ngrids cc) as Hn
    by (apply get_coords_ngrids; simpl; lia).
  assert (0 < get_ngrids cc) as Hpos by (unfold get_ngrids; simpl; nia).
  rewrite <- Hn at 1.
  rewrite density_rho_batch by (unfold density_blksize; lia).
  unfold density_finish. simpl cc_nx. simpl cc_ny. simpl cc_nz.
  rewrite reshape_exact; try lia.
  - reflexivity.
  - rewrite length_map. exact Hn.
Qed.

End Density.

(** ** The potential path *)

Section Potential.

Context {F : Type} {N : Numeric F} {Basis : Type} {E : @Engine F Basis}.
Implicit Types (mol : @Mole F Basis) (dm : @matrix F) (coords : list (@xyz F)).

Lemma coulomb_row_pointwise (Z : Z) (r : xyz) coords :
  coulomb_row Z r coords = map (coulomb Z r) coords.
Proof.
  unfold coulomb_row, einsum_xi_xi_x, sub_rows.
  rewrite zip_with_map_diag, map_map. reflexivity.
Qed.

Lemma atom_of_app mol (pre suf : list (Z * xyz)) (a : Z * xyz) :
  atoms mol = pre ++ a :: suf ->
  atom_of mol (Z.of_nat (length pre)) = Ok a.
Proof.
  intros Hat. unfold atom_of.
  destruct (Z.ltb_spec (Z.of_nat (length pre)) 0); [lia |].
  rewrite Nat2Z.id, Hat, list_lookup_middle by reflexivity. reflexivity.
Qed.

(** Once [Vnuc] is an array, each turn of the loop adds the Coulomb term of
    the next atom at every point. *)
Lemma Vnuc_loop_array mol coords (suf : list (Z * xyz)) :
  forall (pre : list (Z * xyz)) (g : xyz -> F),
    atoms mol = pre ++ suf ->
    Vnuc_loop mol coords (map Z.of_nat (seq (length pre) (length suf)))
      (NdArray (map g coords)) =
    Ok (NdArray (map (fun p =>
          foldl (fun acc a => fadd acc (coulomb (fst a) (snd a) p)) (g p) suf) coords)).
Proof.
  induction suf as [| a suf IH]; intros pre g Hat; [reflexivity |].
  cbn [length seq map Vnuc_loop]. unfold Vnuc_step, atom_coord, atom_charge.
  rewrite (atom_of_app mol pre suf a Hat).
  rewrite coulomb_row_pointwise. cbn [py_iadd].
  destruct (decide (length (map (coulomb a.1 a.2) coords) = length (map g coords)))
    as [_ | Hne]; [| rewrite !length_map in Hne; contradiction].
  rewrite zip_with_map_diag.
  specialize (IH (pre ++ [a]) (fun p => fadd (g p) (coulomb a.1 a.2 p))).
  rewrite length_app, Nat.add_1_r in IH.
  rewrite IH by (rewrite <- app_assoc; exact Hat).
  reflexivity.
Qed.

(** Lines 67-72 with at least one atom: the array of nuclear terms. *)
Lemma Vnuc_loop_run mol coords :
  atoms mol <> [] ->
  Vnuc_loop mol coords (range1 (natm mol)) (PyInt 0) =
  Ok (NdArray (map (nuclear_term mol) coords)).
Proof.
  intros Hne. unfold range1, natm, nuclear_term. rewrite Nat2Z.id.
  destruct (atoms mol) as [| a suf] eqn:Hat; [contradiction |].
  cbn [length seq map Vnuc_loop]. unfold Vnuc_step, atom_coord, atom_charge.
  pose proof (atom_of_app mol [] suf a Hat) as Ha.
  change (length (@nil (Z * xyz))) with 0%nat in Ha. rewrite Ha.
  rewrite coulomb_row_pointwise. cbn [py_iadd]. rewrite map_map.
  apply (Vnuc_loop_array mol coords suf [a]
           (fun p => fadd (of_int 0) (coulomb a.1 a.2 p))).
  exact Hat.
Qed.

(** Without atoms [Vnuc] stays the int 0. *)
Lemma Vnuc_loop_no_atom mol coords :
  atoms mol = [] ->
  Vnuc_loop mol coords (range1 (natm mol)) (PyInt 0) = Ok (PyInt 0).
Proof. intros Hat. unfold range1, natm. rewrite Hat. reflexivity. Qed.

Lemma set_rinv_orig_twice mol (q p : xyz) :
  set_rinv_orig_ (set_rinv_orig_ mol q) p = set_rinv_orig_ mol p.
Proof. reflexivity. Qed.

Lemma foldl_set_atoms coords : forall mol,
  atoms (foldl set_rinv_orig_ mol coords) = atoms mol /\
  basis (foldl set_rinv_orig_ mol coords) = basis mol.
Proof.
  induction coords as [| p l IH]; intros mol; [split; reflexivity |].
  simpl. destruct (IH (set_rinv_orig_ mol p)) as [-> ->]. split; reflexivity.
Qed.

(** After the loop of lines 76-78 the origin is the last point visited. *)
Lemma foldl_set_last mol coords (p : xyz) :
  last coords = Some p ->
  foldl set_rinv_orig_ mol coords = set_rinv_orig_ mol p.
Proof.
  intros Hlast.
  destruct (last_Some coords p) as [[l' ->] _]; [exact Hlast |].
  rewrite foldl_app. simpl. unfold set_rinv_orig_ at 1.
  destruct (foldl_set_atoms l' mol) as [-> ->]. reflexivity.
Qed.

(** Lines 75-78: one contraction per point, each with the origin at that
    point; the molecule goes through one [set_rinv_orig_] per point. *)
Lemma Vele_loop_run mol dm coords (vs : list F) :
  Forall2 (fun p v => electronic_term mol dm p = Ok v) coords vs ->
  forall (mol0 : Mole) (Vele : list F),
    (forall p, set_rinv_orig_ mol0 p = set_rinv_orig_ mol p) ->
    Vele_loop mol0 dm coords Vele =
    (Ok (Vele ++ vs), foldl set_rinv_orig_ mol0 coords).
Proof.
  induction 1 as [| p v coords vs Hp Hrest IH]; intros mol0 Vele Hsame.
  - simpl. now rewrite app_nil_r.
  - simpl. rewrite Hsame. unfold electronic_term in Hp. rewrite Hp.
    rewrite IH by (intros q; reflexivity).
    rewrite <- app_assoc, <- Hsame. reflexivity.
Qed.

(** A raised contraction stops the loop with the origin at that point. *)
Lemma Vele_loop_raise mol dm (e : exn) (p : xyz) coords (Vele : list F) :
  electronic_term mol dm p = Raise e ->
  Vele_loop mol dm (p :: coords) Vele = (Raise e, set_rinv_orig_ mol p).
Proof. intros Hp. simpl. unfold electronic_term in Hp. now rewrite Hp. Qed.

Lemma mep_values_run mol dm coords (vs : list F) :
  atoms mol <> [] ->
  Forall2 (fun p v => electronic_term mol dm p = Ok v) coords vs ->
  mep_values mol dm coords =
  (Ok (zip_with fsub (map (nuclear_term mol) coords) vs),
   foldl set_rinv_orig_ mol coords).
Proof.
  intros Hat Hvs. unfold mep_values.
  rewrite Vnuc_loop_run by assumption.
  rewrite (Vele_loop_run mol dm coords vs Hvs mol []) by reflexivity.
  cbn [app py_sub]. unfold broadcast2.
  destruct (decide (length (map (nuclear_term mol) coords) = length vs)) as [_ | Hne].
  - reflexivity.
  - rewrite length_map in Hne. apply Forall2_length in Hvs. contradiction.
Qed.

(** Without atoms, [Vnuc - Vele] is an int minus a list. *)
Lemma mep_values_no_atom mol dm coords (vs : list F) :
  atoms mol = [] ->
  Forall2 (fun p v => electronic_term mol dm p = Ok v) coords vs ->
  mep_values mol dm coords = (Raise TypeError, foldl set_rinv_orig_ mol coords).
Proof.
  intros Hat Hvs. unfold mep_values.
  rewrite Vnuc_loop_no_atom by assumption.
  rewrite (Vele_loop_run mol dm coords vs Hvs mol []) by reflexivity.
  reflexivity.
Qed.

Lemma zip_with_lookup_sub (f : xyz -> F) coords (vs : list F) (k : nat) (p : xyz) (v : F) :
  coords !! k = Some p -> vs !! k = Some v ->
  zip_with fsub (map f coords) vs !! k = Some (fsub (f p) v).
Proof.
  intros Hp Hv. rewrite lookup_zip_with.
  change (map f coords) with (f <$> coords).
  rewrite list_lookup_fmap, Hp, Hv. reflexivity.
Qed.

(** What [mep] does on a valid grid, with at least one atom, when every
    contraction succeeds. *)
Lemma mep_run mol (outfile : string) dm (nx ny nz : Z) (fs : filesys) (vs : list F) :
  0 < nx -> 0 < ny -> 0 < nz ->
  atoms mol <> [] ->
  let cc := {| cc_mol := mol; cc_nx := nx; cc_ny := ny; cc_nz := nz |} in
  Forall2 (fun p v => electronic_term mol dm p = Ok v) (get_coords cc) vs ->
  mep mol outfile dm (Some nx) (Some ny) (Some nz) fs =
  (Ok tt,
   foldl set_rinv_orig_ mol (get_coords cc),
   <[ outfile := {| cube_comment := "Molecular electrostatic potential in real space";
                    cube_atoms := atoms mol;
                    cube_shape := (nx, ny, nz);
                    cube_data := zip_with fsub (map (nuclear_term mol) (get_coords cc)) vs |} ]> fs).
Proof.
  intros Hx Hy Hz Hat cc Hvs. unfold mep. simpl default.
  rewrite cube_c_init_positive by assumption. fold cc.
  rewrite (mep_values_run mol dm (get_coords cc) vs Hat Hvs).
  unfold mep_finish. rewrite reshape_exact; try lia.
  - reflexivity.
  - rewrite length_zip_with, length_map, <- (Forall2_length _ _ _ Hvs), Nat.min_id.
    rewrite get_coords_ngrids by (simpl; lia). reflexivity.
Qed.

End Potential.

(** ** The Coulomb formula in exact arithmetic *)

Section Coulomb.

#[local] Existing Instance xreal_numeric.

Context {Basis : Type}.
Implicit Types (r p : Rxyz) (l : list (Z * Rxyz)).

Lemma Rsign_zero (x : R) : Rsign x = 0 <-> x = 0%R.
Proof.
  unfold Rsign. destruct (total_order_T x 0) as [[Hlt | Heq] | Hgt]; split;
    intros Hx; try discriminate; try assumption; try reflexivity; lra.
Qed.

Lemma Rsign_neg (x : R) : Rsign x = -1 <-> (x < 0)%R.
Proof.
  unfold Rsign. destruct (total_order_T x 0) as [[Hlt | Heq] | Hgt]; split;
    intros Hx; try discriminate; try assumption; try reflexivity; lra.
Qed.

Lemma xinf_of_sign_not_finite (s : Z) : ~ is_finite (xinf_of_sign s).
Proof. unfold xinf_of_sign. destruct (s =? 0), (0 <? s); simpl; tauto. Qed.

Lemma xadd_not_finite_l (a b : xreal) : ~ is_finite a -> ~ is_finite (xadd a b).
Proof. destruct a, b; simpl; tauto. Qed.

Lemma xadd_not_finite_r (a b : xreal) : ~ is_finite b -> ~ is_finite (xadd a b).
Proof. destruct a, b; simpl; tauto. Qed.

Lemma xsub_not_finite_l (a b : xreal) : ~ is_finite a -> ~ is_finite (xsub a b).
Proof. unfold xsub. apply xadd_not_finite_l. Qed.

Lemma sqdist_pos r p : r <> p -> (0 < sqdist r p)%R.
Proof.
  destruct r as [[rx ry] rz], p as [[px py] pz]. intros Hne. simpl.
  assert (forall x y : R, x <> y -> (0 < (x - y) * (x - y))%R) as Hsq.
  { intros x y Hxy. apply (Rsqr_pos_lt (x - y)). lra. }
  assert (forall x y : R, (0 <= (x - y) * (x - y))%R) as Hge.
  { intros x y. apply (Rle_0_sqr (x - y)). }
  pose proof (Hge rx px). pose proof (Hge ry py). pose proof (Hge rz pz).
  destruct (Req_dec rx px) as [Hx | Hx]; [| specialize (Hsq _ _ Hx); lra].
  destruct (Req_dec ry py) as [Hy | Hy]; [| specialize (Hsq _ _ Hy); lra].
  destruct (Req_dec rz pz) as [Hz | Hz]; [| specialize (Hsq _ _ Hz); lra].
  subst. contradiction.
Qed.

Lemma dist_sqdist r p : dist r p = R_sqrt.sqrt (sqdist r p).
Proof. reflexivity. Qed.

Lemma dist_pos r p : r <> p -> (0 < dist r p)%R.
Proof. intros Hne. rewrite dist_sqdist. apply sqrt_lt_R0, sqdist_pos, Hne. Qed.

(** The term of one atom as the code computes it, through the divisor. *)
Lemma coulomb_inject (Z : Z) r p :
  coulomb Z (inject r) (inject p) =
  fdiv (of_int Z) (fsqrt (Fin (sqdist r p))).
Proof. destruct r as [[rx ry] rz], p as [[px py] pz]. reflexivity. Qed.

Lemma divisor_regular r p :
  r <> p -> fsqrt (Fin (sqdist r p)) = Fin (dist r p).
Proof.
  intros Hne. pose proof (sqdist_pos r p Hne) as Hpos.
  rewrite dist_sqdist. simpl. unfold xsqrt.
  destruct (decide (Rsign (sqdist r p) = -1)) as [Hneg | _]; [| reflexivity].
  apply Rsign_neg in Hneg. lra.
Qed.

Lemma divisor_singular p : fsqrt (Fin (sqdist p p)) = Fin 0.
Proof.
  assert (sqdist p p = 0%R) as ->.
  { destruct p as [[px py] pz]. simpl. ring. }
  simpl. unfold xsqrt.
  destruct (decide (Rsign 0 = -1)) as [Hneg | _].
  - apply Rsign_neg in Hneg. lra.
  - now rewrite sqrt_0.
Qed.

(** Away from the atom the division is an ordinary real division. *)
Lemma coulomb_regular (Z : Z) r p :
  r <> p -> coulomb Z (inject r) (inject p) = Fin (IZR Z / dist r p).
Proof.
  intros Hne. rewrite coulomb_inject, divisor_regular by assumption.
  simpl. unfold xdiv.
  destruct (decide (Rsign (dist r p) = 0)) as [Hz | _]; [| reflexivity].
  apply Rsign_zero in Hz. pose proof (dist_pos r p Hne). lra.
Qed.

(** On the atom the divisor is zero and the quotient is an infinity or NaN. *)
Lemma coulomb_singular (Z : Z) p :
  ~ is_finite (coulomb Z (inject p) (inject p)).
Proof.
  rewrite coulomb_inject, divisor_singular. simpl. unfold xdiv.
  destruct (decide (Rsign 0 = 0)) as [_ | Hnz].
  - apply xinf_of_sign_not_finite.
  - exfalso. apply Hnz. now apply Rsign_zero.
Qed.

Lemma nuclear_fold_regular l p : forall acc : R,
  (forall a, a ∈ l -> snd a <> p) ->
  foldl (fun acc a => fadd acc (coulomb (fst a) (snd a) (inject p))) (Fin acc)
        (inject_atoms l) =
  Fin (foldl (fun acc a => (acc + IZR (fst a) / dist (snd a) p)%R) acc l).
Proof.
  induction l as [| a l IH]; intros acc Hne; [reflexivity |].
  unfold inject_atoms. cbn [map foldl fst snd]. fold (inject_atoms l).
  rewrite coulomb_regular by (apply Hne; left).
  apply (IH (acc + IZR (fst a) / dist (snd a) p)%R).
  intros b Hb. apply Hne. now right.
Qed.

Lemma nuclear_fold_singular l p : forall acc : xreal,
  (~ is_finite acc \/ exists a, a ∈ l /\ snd a = p) ->
  ~ is_finite
      (foldl (fun acc a => fadd acc (coulomb (fst a) (snd a) (inject p))) acc
             (inject_atoms l)).
Proof.
  induction l as [| a l IH]; intros acc Hcase.
  - simpl. destruct Hcase as [Hacc | (a & Ha & _)]; [exact Hacc |].
    now apply not_elem_of_nil in Ha.
  - unfold inject_atoms. cbn [map foldl fst snd]. fold (inject_atoms l).
    apply IH.
    destruct Hcase as [Hacc | (b & Hb & Hbp)].
    + left. now apply xadd_not_finite_l.
    + apply elem_of_cons in Hb as [-> | Hb].
      * left. apply (xadd_not_finite_r acc). rewrite Hbp. apply coulomb_singular.
      * right. exists b. split; assumption.
Qed.

Lemma nuclear_term_regular l (b : Basis) (o : xyz) p :
  (forall a, a ∈ l -> snd a <> p) ->
  nuclear_term {| atoms := inject_atoms l; basis := b; rinv_orig := o |} (inject p) =
  Fin (coulomb_sum l p).
Proof. intros Hne. unfold nuclear_term, coulomb_sum. simpl. now apply nuclear_fold_regular. Qed.

Lemma nuclear_term_singular l (b : Basis) (o : xyz) p :
  (exists a, a ∈ l /\ snd a = p) ->
  ~ is_finite
      (nuclear_term {| atoms := inject_atoms l; basis := b; rinv_orig := o |} (inject p)).
Proof. intros Hon. unfold nuclear_term. simpl. apply nuclear_fold_singular. now right. Qed.

Lemma dist_on_axis (d : R) : (0 < d)%R -> dist (0, 0, 0)%R (d, 0, 0)%R = d.
Proof.
  intros Hd. unfold dist, sqdist.
  replace ((0 - d) * (0 - d) + (0 - 0) * (0 - 0) + (0 - 0) * (0 - 0))%R
    with (d * d)%R by ring.
  apply sqrt_square. lra.
Qed.

End Coulomb.

(** ** The claims about [density] *)

Section DensityClaims.

Context {F : Type} {Basis : Type} {E : @Engine F Basis}.
Implicit Types (mol : @Mole F Basis) (dm : @matrix F) (coords : list (@xyz F)).

(** C2.  For a block size between 1 and the number of grid points, the array
    that the chunked loop of [density] builds (the per-chunk
    [eval_ao]/[eval_rho] results written slice by slice) is the array of one
    unchunked [eval_ao]/[eval_rho] call on all the points; the block size
    [min(8000, ngrids)] that [density] uses is one of these. *)
Theorem chunked_density_equals_batch mol dm coords (blk : Z) :
  1 <= blk <= Z.of_nat (length coords) ->
  let ngrids := Z.of_nat (length coords) in
  density_rho mol dm coords ngrids blk =
    Ok (eval_rho mol (eval_ao mol coords None) dm) /\
  density_rho mol dm coords ngrids (Z.min 8000 ngrids) =
    density_rho mol dm coords ngrids blk.
Proof.
  intros Hblk ngrids. subst ngrids.
  rewrite eval_batch, !density_rho_batch by lia. split; reflexivity.
Qed.

Lemma chunk_indices_elem (a b i : Z) :
  i ∈ chunk_indices (a, b) <-> a <= i < b.
Proof.
  unfold chunk_indices. cbn [fst snd].
  rewrite list_elem_of_In, in_map_iff. split.
  - intros (k & <- & Hk). apply in_seq in Hk. lia.
  - intros Hi. exists (Z.to_nat (i - a)). split; [lia |]. apply in_seq. lia.
Qed.

(** The cells of an array after the slice assignment of one chunk. *)
Lemma written_cells {A} (rho v : list A) (a b : Z) (i : nat) :
  0 <= a <= b -> b <= Z.of_nat (length rho) ->
  length v = Z.to_nat (b - a) ->
  (take (Z.to_nat a) rho ++ v ++ drop (Z.to_nat b) rho) !! i =
  if decide (a <= Z.of_nat i < b) then v !! (i - Z.to_nat a)%nat else rho !! i.
Proof.
  intros Hab Hb Hv.
  assert (length (take (Z.to_nat a) rho) = Z.to_nat a) as Hta
    by (rewrite length_take; lia).
  destruct (decide (a <= Z.of_nat i < b)) as [Hin | Hout].
  - rewrite lookup_app_r by lia. rewrite Hta. apply lookup_app_l. lia.
  - destruct (Z.lt_ge_cases (Z.of_nat i) a) as [Hlt | Hge].
    + rewrite lookup_app_l by lia. apply lookup_take_lt. lia.
    + rewrite lookup_app_r by lia. rewrite lookup_app_r by lia.
      rewrite lookup_drop, Hta, Hv. f_equal. lia.
Qed.

(** The loop over any chunks inside the array: the cells of the chunks hold
    the density of their grid point, every other cell is as it was. *)
Lemma density_loop_cells mol dm coords (chunks : list (Z * Z)) :
  Forall (fun c => 0 <= fst c <= snd c /\ snd c <= Z.of_nat (length coords)) chunks ->
  forall (rho : list F) (ao : option matrix),
    length rho = length coords ->
    exists rho' : list F,
      density_loop mol dm coords chunks rho ao = Ok rho' /\
      length rho' = length coords /\
      forall i : nat,
        rho' !! i =
        if decide (Z.of_nat i ∈ concat (map chunk_indices chunks))
        then density_at mol dm <$> coords !! i
        else rho !! i.
Proof.
  induction 1 as [| [a b] chunks [Hab Hb] _ IH]; intros rho ao Hrho.
  - exists rho. split; [reflexivity | split; [exact Hrho |]].
    intros i. cbn [map concat].
    destruct (decide (Z.of_nat i ∈ [])) as [Hin | _]; [| reflexivity].
    now apply not_elem_of_nil in Hin.
  - cbn [fst snd] in Hab, Hb. cbn [density_loop]. rewrite eval_batch.
    rewrite getslice_inside by lia.
    set (v := map (density_at mol dm) (take (Z.to_nat (b - a)) (drop (Z.to_nat a) coords))).
    assert (length v = Z.to_nat (b - a)) as Hv.
    { subst v. rewrite length_map, length_take, length_drop. lia. }
    rewrite setslice_inside by (rewrite ?Hrho; lia).
    set (rho1 := take (Z.to_nat a) rho ++ v ++ drop (Z.to_nat b) rho).
    assert (length rho1 = length coords) as Hrho1.
    { subst rho1. rewrite !length_app, length_take, length_drop. lia. }
    destruct (IH rho1 (Some (eval_ao mol
                 (take (Z.to_nat (b - a)) (drop (Z.to_nat a) coords)) ao)) Hrho1)
      as (rho' & Hloop & Hlen & Hcells).
    exists rho'. split; [exact Hloop | split; [exact Hlen |]].
    intros i. rewrite Hcells. cbn [map concat].
    destruct (decide (Z.of_nat i ∈ concat (map chunk_indices chunks))) as [Hin | Hnin].
    + rewrite decide_True; [reflexivity |]. apply elem_of_app. now right.
    + subst rho1. rewrite written_cells by (rewrite ?Hrho; lia).
      destruct (decide (a <= Z.of_nat i < b)) as [Hi | Hi].
      * rewrite decide_True by (apply elem_of_app; left; now apply chunk_indices_elem).
        subst v. change (map ?f ?l) with (f <$> l).
        rewrite list_lookup_fmap, lookup_take_lt, lookup_drop by lia.
        do 2 f_equal. lia.
      * rewrite decide_False; [reflexivity |].
        rewrite elem_of_app, chunk_indices_elem. tauto.
Qed.

(** C5.  On a valid grid the loop of [density] (lines 37-41) is the loop
    over the chunks that [prange] yields for the block size of line 36,
    started on the array of [numpy.empty].  Every chunk (ip0, ip1)
    lies in [0, ngrids) and has length at most min(8000, ngrids); the
    indices of the chunks, chunk after chunk, are 0, 1, ..., ngrids-1, so
    the chunks do not overlap and cover the range.  After the first k turns
    of the loop the cells of the first k chunks hold the density of their
    grid point and every other cell still holds what [numpy.empty] left: a
    turn writes the cells of its chunk and no other, so each cell of the
    output is written once, and the array after the last turn is what
    [density] writes. *)
Theorem density_chunks_partition mol (outfile : string) dm (nx ny nz : Z) (fs : filesys) :
  0 < nx -> 0 < ny -> 0 < nz ->
  let cc := {| cc_mol := mol; cc_nx := nx; cc_ny := ny; cc_nz := nz |} in
  let coords := get_coords cc in
  let ngrids := get_ngrids cc in
  exists (rho0 : list F) (chunks : list (Z * Z)),
    numpy_empty ngrids = Ok rho0 /\
    prange 0 ngrids (density_blksize ngrids) = Ok chunks /\
    density_rho mol dm coords ngrids (density_blksize ngrids) =
      density_loop mol dm coords chunks rho0 None /\
    Forall (fun c => 0 <= fst c /\ fst c < snd c /\ snd c <= ngrids /\
                     snd c - fst c <= Z.min 8000 ngrids) chunks /\
    concat (map chunk_indices chunks) = range1 ngrids /\
    (forall k : nat,
       exists rho_k : list F,
         density_loop mol dm coords (take k chunks) rho0 None = Ok rho_k /\
         length rho_k = length rho0 /\
         forall i : nat,
           rho_k !! i =
           if decide (Z.of_nat i ∈ concat (map chunk_indices (take k chunks)))
           then density_at mol dm <$> coords !! i
           else rho0 !! i) /\
    (exists rho : list F,
       density_loop mol dm coords chunks rho0 None = Ok rho /\
       density mol outfile dm (Some nx) (Some ny) (Some nz) fs =
         (Ok tt,
          <[ outfile := {| cube_comment := "Electron density in real space (e/Bohr^3)";
                           cube_atoms := atoms mol;
                           cube_shape := (nx, ny, nz);
                           cube_data := rho |} ]> fs)).
Proof.
  intros Hx Hy Hz cc coords ngrids.
  assert (Z.of_nat (length coords) = ngrids) as Hn
    by (apply get_coords_ngrids; simpl; lia).
  assert (0 < ngrids) as Hpos by (subst ngrids; unfold get_ngrids; simpl; nia).
  destruct (numpy_empty_length ngrids ltac:(lia)) as (rho0 & Hempty & Hrho0).
  destruct (prange_tiling (density_blksize ngrids) ngrids
              ltac:(unfold density_blksize; lia) ltac:(lia))
    as (chunks & Hpr & Htile).
  pose proof (tiling_bounds _ _ _ _ Htile) as Hbounds.
  exists rho0, chunks.
  split; [exact Hempty | split; [exact Hpr | split; [| split; [| split; [| split]]]]].
  - unfold density_rho. rewrite Hempty, Hpr. reflexivity.
  - eapply Forall_impl; [exact Hbounds |]. unfold density_blksize. simpl. intros c Hc. lia.
  - rewrite (tiling_indices _ _ _ _ Htile), Z.sub_0_r. reflexivity.
  - intros k.
    destruct (density_loop_cells mol dm coords (take k chunks)) with (rho := rho0) (ao := @None (@matrix F))
      as (rho_k & Hloop & Hlen & Hcells).
    + apply Forall_take. eapply Forall_impl; [exact Hbounds |]. simpl. intros c Hc. lia.
    + lia.
    + exists rho_k. split; [exact Hloop | split; [lia | exact Hcells]].
  - exists (map (density_at mol dm) coords). split.
    + rewrite <- Hn in Htile.
      apply (density_loop_tiling mol dm coords _ chunks 0 Htile); [lia | lia | reflexivity].
    + apply density_run; assumption.
Qed.

(** C8.  On a valid grid [density] writes, for every grid point, the value
    that the contraction with the density matrix returned for that point,
    unchanged: no clamping and no other post-processing. *)
Theorem density_stores_contraction mol (outfile : string) dm (nx ny nz : Z)
    (fs : filesys) :
  0 < nx -> 0 < ny -> 0 < nz ->
  let coords := get_coords {| cc_mol := mol; cc_nx := nx; cc_ny := ny; cc_nz := nz |} in
  exists cube : CubeFile,
    density mol outfile dm (Some nx) (Some ny) (Some nz) fs =
      (Ok tt, <[ outfile := cube ]> fs) /\
    cube_data cube = eval_rho mol (eval_ao mol coords None) dm /\
    forall (k : nat) (p : xyz),
      coords !! k = Some p ->
      cube_data cube !! k = Some (rho_at mol (ao_at mol p) dm).
Proof.
  intros Hx Hy Hz coords.
  eexists. split; [apply density_run; assumption |].
  cbn [cube_data]. fold coords. split.
  - now rewrite eval_batch.
  - intros k p Hk. change (map ?f coords) with (f <$> coords).
    rewrite list_lookup_fmap, Hk. reflexivity.
Qed.

(** C6.  After a successful [cube_c] construction, a flat array whose length
    is not nx*ny*nz makes the reshape of [density] and of [mep] raise, and
    the file system is left as it was: nothing is written. *)
Theorem shape_mismatch_is_fatal mol (nx ny nz : Z) (cc : cube_c) (arr : list F)
    (outfile : string) (fs : filesys) :
  cube_c_init mol nx ny nz = Ok cc ->
  Z.of_nat (length arr) <> nx * ny * nz ->
  density_finish cc arr outfile fs = (Raise ValueError, fs) /\
  mep_finish cc arr nx ny nz outfile fs = (Raise ValueError, fs).
Proof.
  intros Hcc Hlen.
  destruct (cube_c_init_inv mol nx ny nz cc Hcc) as (Hx & Hy & Hz & ->).
  unfold density_finish, mep_finish. cbn [cc_nx cc_ny cc_nz].
  rewrite reshape_mismatch by lia. split; reflexivity.
Qed.

End DensityClaims.

(** ** The claims about [mep] and about both functions *)

Section PotentialClaims.

Context {F : Type} {N : Numeric F} {Basis : Type} {E : @Engine F Basis}.
Implicit Types (mol : @Mole F Basis) (dm : @matrix F) (coords : list (@xyz F)).

Lemma electronic_values mol dm coords :
  Forall (fun p => is_ok (electronic_term mol dm p) = true) coords ->
  exists vs : list F,
    Forall2 (fun p v => electronic_term mol dm p = Ok v) coords vs.
Proof.
  induction 1 as [| p coords Hp _ (vs & Hvs)].
  - exists []. constructor.
  - destruct (electronic_term mol dm p) as [v |] eqn:Hv; [| discriminate].
    exists (v :: vs). now constructor.
Qed.

(** C1.  On a valid grid, for a molecule with at least one atom and when no
    contraction raises, the value that [mep] writes for the grid point [p]
    is the nuclear term at [p] (the sum over the atoms of Z_i / |r_i - p|)
    minus the electronic term at [p] (the rinv matrix with the origin set to
    [p], contracted element-wise with the density matrix), one contraction
    per point. *)
Theorem mep_point_value mol (outfile : string) dm (nx ny nz : Z) (fs : filesys) :
  0 < nx -> 0 < ny -> 0 < nz ->
  atoms mol <> [] ->
  let coords := get_coords {| cc_mol := mol; cc_nx := nx; cc_ny := ny; cc_nz := nz |} in
  Forall (fun p => is_ok (electronic_term mol dm p) = true) coords ->
  exists (mol' : Mole) (cube : CubeFile),
    mep mol outfile dm (Some nx) (Some ny) (Some nz) fs =
      (Ok tt, mol', <[ outfile := cube ]> fs) /\
    cube_shape cube = (nx, ny, nz) /\
    length (cube_data cube) = length coords /\
    forall (k : nat) (p : xyz),
      coords !! k = Some p ->
      exists e : F,
        einsum_ij_ij (intor (set_rinv_orig_ mol p)) dm = Ok e /\
        cube_data cube !! k = Some (fsub (nuclear_term mol p) e).
Proof.
  intros Hx Hy Hz Hat coords Hok.
  destruct (electronic_values mol dm coords Hok) as (vs & Hvs).
  do 2 eexists. split; [apply (mep_run mol outfile dm nx ny nz fs vs); assumption |].
  cbn [cube_shape cube_data]. fold coords.
  pose proof (Forall2_length _ _ _ Hvs) as Hlen.
  split; [reflexivity | split].
  - rewrite length_zip_with, length_map. lia.
  - intros k p Hk.
    destruct (Forall2_lookup_l _ _ _ _ _ Hvs Hk) as (v & Hv & Hpv).
    exists v. split; [exact Hpv |].
    now apply zip_with_lookup_sub.
Qed.

(** C9.  On the same inputs [mep] returns with the molecule changed: one
    [set_rinv_orig_] per grid point, in grid order, none undone, so the rinv
    origin is the last grid coordinate; the atoms and the basis are as
    before, and the molecule differs from the one passed in as soon as its
    origin was not already that coordinate. *)
Theorem mep_leaves_origin_at_last_point mol (outfile : string) dm (nx ny nz : Z)
    (fs : filesys) :
  0 < nx -> 0 < ny -> 0 < nz ->
  atoms mol <> [] ->
  let coords := get_coords {| cc_mol := mol; cc_nx := nx; cc_ny := ny; cc_nz := nz |} in
  Forall (fun p => is_ok (electronic_term mol dm p) = true) coords ->
  exists (plast : xyz) (mol' : Mole) (fs' : filesys),
    last coords = Some plast /\
    mep mol outfile dm (Some nx) (Some ny) (Some nz) fs = (Ok tt, mol', fs') /\
    snd (Vele_loop mol dm coords []) = mol' /\
    mol' = foldl set_rinv_orig_ mol coords /\
    rinv_orig mol' = plast /\
    atoms mol' = atoms mol /\ basis mol' = basis mol /\
    (rinv_orig mol <> plast -> mol' <> mol).
Proof.
  intros Hx Hy Hz Hat coords Hok.
  destruct (electronic_values mol dm coords Hok) as (vs & Hvs).
  assert (exists plast, last coords = Some plast) as (plast & Hlast).
  { destruct (last coords) as [q |] eqn:Hq; [now exists q |].
    apply last_None in Hq.
    pose proof (get_coords_ngrids
                  {| cc_mol := mol; cc_nx := nx; cc_ny := ny; cc_nz := nz |}
                  ltac:(simpl; lia) ltac:(simpl; lia) ltac:(simpl; lia)) as Hn.
    fold coords in Hn. rewrite Hq in Hn. unfold get_ngrids in Hn. simpl in Hn. nia. }
  exists plast, (foldl set_rinv_orig_ mol coords). eexists.
  split; [exact Hlast | split].
  { apply (mep_run mol outfile dm nx ny nz fs vs); assumption. }
  split.
  { now rewrite (Vele_loop_run mol dm coords vs Hvs mol []). }
  split; [reflexivity |].
  rewrite (foldl_set_last mol coords plast Hlast).
  repeat split.
  intros Hne Heq. apply Hne. rewrite <- Heq at 1. reflexivity.
Qed.

(** C4.  With nx, ny or nz at most 0, [density] and [mep] raise at the
    construction of the grid, before anything is evaluated: the file system
    and the molecule are returned untouched. *)
Theorem invalid_grid_rejected mol (outfile : string) dm (nx ny nz : Z) (fs : filesys) :
  nx <= 0 \/ ny <= 0 \/ nz <= 0 ->
  density mol outfile dm (Some nx) (Some ny) (Some nz) fs = (Raise ValueError, fs) /\
  mep mol outfile dm (Some nx) (Some ny) (Some nz) fs = (Raise ValueError, mol, fs).
Proof.
  intros Hbad. unfold density, mep. simpl default.
  rewrite cube_c_init_rejects by assumption. split; reflexivity.
Qed.

Lemma density_default mol (outfile : string) dm (fs : filesys) :
  density mol outfile dm None None None fs =
  density mol outfile dm (Some 80) (Some 80) (Some 80) fs.
Proof. unfold density. cbn [default]. reflexivity. Qed.

Lemma mep_default mol (outfile : string) dm (fs : filesys) :
  mep mol outfile dm None None None fs =
  mep mol outfile dm (Some 80) (Some 80) (Some 80) fs.
Proof. unfold mep. cbn [default]. reflexivity. Qed.

(** C10.  Without nx, ny, nz both functions run as with nx = ny = nz = 80:
    the grid then has 80 * 80 * 80 = 512000 points; the cube that [density]
    writes has that shape and that many values, and so has the cube that
    [mep] writes when the molecule has an atom and no contraction raises,
    each value being the potential at its grid point. *)
Theorem default_grid_is_80 mol (outfile : string) dm (fs : filesys) :
  density mol outfile dm None None None fs =
    density mol outfile dm (Some 80) (Some 80) (Some 80) fs /\
  mep mol outfile dm None None None fs =
    mep mol outfile dm (Some 80) (Some 80) (Some 80) fs /\
  (exists cc : cube_c,
     cube_c_init mol 80 80 80 = Ok cc /\
     (cc_nx cc, cc_ny cc, cc_nz cc) = (80, 80, 80) /\
     get_ngrids cc = 512000 /\
     Z.of_nat (length (get_coords cc)) = 512000) /\
  (exists cube : CubeFile,
     density mol outfile dm None None None fs = (Ok tt, <[ outfile := cube ]> fs) /\
     cube_shape cube = (80, 80, 80) /\
     Z.of_nat (length (cube_data cube)) = 512000) /\
  (let coords := get_coords {| cc_mol := mol; cc_nx := 80; cc_ny := 80; cc_nz := 80 |} in
   atoms mol <> [] ->
   Forall (fun p => is_ok (electronic_term mol dm p) = true) coords ->
   exists (mol' : Mole) (cube : CubeFile),
     mep mol outfile dm None None None fs = (Ok tt, mol', <[ outfile := cube ]> fs) /\
     cube_shape cube = (80, 80, 80) /\
     Z.of_nat (length (cube_data cube)) = 512000 /\
     forall (k : nat) (p : xyz),
       coords !! k = Some p ->
       exists e : F,
         einsum_ij_ij (intor (set_rinv_orig_ mol p)) dm = Ok e /\
         cube_data cube !! k = Some (fsub (nuclear_term mol p) e)).
Proof.
  split; [apply density_default | split; [apply mep_default | split; [| split]]].
  - exists {| cc_mol := mol; cc_nx := 80; cc_ny := 80; cc_nz := 80 |}.
    split; [apply cube_c_init_positive; lia |].
    split; [reflexivity | split; [reflexivity |]].
    rewrite get_coords_ngrids; cbn [cc_nx cc_ny cc_nz]; [reflexivity | lia ..].
  - rewrite density_default.
    eexists. split; [apply density_run; lia |].
    cbn [cube_shape cube_data]. split; [reflexivity |].
    rewrite length_map, get_coords_ngrids; cbn [cc_nx cc_ny cc_nz];
      [reflexivity | lia ..].
  - intros coords Hat Hok. rewrite mep_default.
    destruct (electronic_values mol dm coords Hok) as (vs & Hvs).
    pose proof (Forall2_length _ _ _ Hvs) as Hlen.
    do 2 eexists.
    split; [apply (mep_run mol outfile dm 80 80 80 fs vs); [lia | lia | lia | | ]; assumption |].
    cbn [cube_shape cube_data]. fold coords.
    split; [reflexivity | split].
    + rewrite length_zip_with, length_map, <- Hlen, Nat.min_id.
      subst coords. rewrite get_coords_ngrids; cbn [cc_nx cc_ny cc_nz];
        [reflexivity | lia ..].
    + intros k p Hk.
      destruct (Forall2_lookup_l _ _ _ _ _ Hvs Hk) as (v & Hv & Hpv).
      exists v. split; [exact Hpv |].
      now apply zip_with_lookup_sub.
Qed.

End PotentialClaims.

(** ** The claims about the Coulomb formula *)

Section CoulombClaims.

#[local] Existing Instance xreal_numeric.

Context {Basis : Type} {E : @Engine xreal Basis}.
Implicit Types (r p : Rxyz) (l : list (Z * Rxyz)).

Lemma lookup_map_inject (f : @xyz xreal -> xreal) (rc : list Rxyz) (k : nat) p :
  rc !! k = Some p ->
  map f (map inject rc) !! k = Some (f (inject p)).
Proof.
  intros Hk. change (map f (map inject rc)) with (f <$> (inject <$> rc)).
  rewrite !list_lookup_fmap, Hk. reflexivity.
Qed.

Lemma inject_atoms_nonempty l : l <> [] -> inject_atoms l <> [].
Proof. destruct l; [contradiction | discriminate]. Qed.

(** In exact arithmetic, for one atom of charge Z at the origin, the
    nuclear term that the loop of [mep] computes at a grid point (d, 0, 0)
    with d > 0 is Z / d.  In general the loop yields, at every point, the sum
    of Z_i / |r_i - p| over all the atoms, nothing left out or cut off: away
    from the atoms it is the real number [coulomb_sum]. *)
Lemma nuclear_term_single_atom (Z : Z) (d : R) (b : Basis) (o : xyz)
    (rcoords : list Rxyz) (k : nat) :
  (0 < d)%R ->
  rcoords !! k = Some (d, 0, 0)%R ->
  (let mol := {| atoms := inject_atoms [(Z, (0, 0, 0)%R)]; basis := b; rinv_orig := o |} in
   exists Vnuc : list xreal,
     Vnuc_loop mol (map inject rcoords) (range1 (natm mol)) (PyInt 0) =
       Ok (NdArray Vnuc) /\
     Vnuc !! k = Some (Fin (IZR Z / d))) /\
  (forall l (rc : list Rxyz),
     l <> [] ->
     let mol := {| atoms := inject_atoms l; basis := b; rinv_orig := o |} in
     Vnuc_loop mol (map inject rc) (range1 (natm mol)) (PyInt 0) =
       Ok (NdArray (map (nuclear_term mol) (map inject rc))) /\
     forall p, (forall a, a ∈ l -> snd a <> p) ->
       nuclear_term mol (inject p) = Fin (coulomb_sum l p)).
Proof.
  intros Hd Hk. split.
  - intros mol. eexists. split.
    + apply Vnuc_loop_run. discriminate.
    + rewrite (lookup_map_inject _ rcoords k _ Hk). f_equal.
      subst mol. rewrite nuclear_term_regular.
      * unfold coulomb_sum. cbn [foldl fst snd].
        rewrite dist_on_axis by assumption. f_equal. apply Rplus_0_l.
      * intros a Ha. apply list_elem_of_singleton in Ha as ->.
        cbn [snd]. intros Heq. injection Heq as Heq. lra.
  - intros l rc Hl mol. split.
    + apply Vnuc_loop_run. cbn [atoms]. now apply inject_atoms_nonempty.
    + intros p Hp. now apply nuclear_term_regular.
Qed.

(** In exact arithmetic: [mep] does not guard the division Z / |r_i - p|: with at least one
    atom and no raising contraction the values are returned without an
    error whether or not a grid point lies on an atom.  At a grid point that
    is the position of an atom the divisor is zero, the nuclear term is an
    infinity or NaN and so is the value of the potential there; at a grid
    point that is the position of no atom every divisor is a positive real,
    every term is the real quotient and the nuclear term is finite. *)
Lemma nuclear_singularity_unguarded l (b : Basis) (o : xyz) (dm : @matrix xreal)
    (rcoords : list Rxyz) :
  l <> [] ->
  let mol := {| atoms := inject_atoms l; basis := b; rinv_orig := o |} in
  Forall (fun q => is_ok (electronic_term mol dm q) = true) (map inject rcoords) ->
  exists (MEP : list xreal) (mol' : Mole),
    mep_values mol dm (map inject rcoords) = (Ok MEP, mol') /\
    length MEP = length rcoords /\
    forall (k : nat) p,
      rcoords !! k = Some p ->
      ((exists a, a ∈ l /\ snd a = p) ->
         fsqrt (Fin (sqdist p p)) = Fin 0 /\
         ~ is_finite (nuclear_term mol (inject p)) /\
         exists v, MEP !! k = Some v /\ ~ is_finite v) /\
      ((forall a, a ∈ l -> snd a <> p) ->
         (forall a, a ∈ l ->
            (0 < dist (snd a) p)%R /\
            fsqrt (Fin (sqdist (snd a) p)) = Fin (dist (snd a) p) /\
            coulomb (fst a) (inject (snd a)) (inject p) =
              Fin (IZR (fst a) / dist (snd a) p)) /\
         nuclear_term mol (inject p) = Fin (coulomb_sum l p)).
Proof.
  intros Hl mol Hok.
  destruct (electronic_values mol dm _ Hok) as (vs & Hvs).
  pose proof (Forall2_length _ _ _ Hvs) as Hlen. rewrite length_map in Hlen.
  do 2 eexists. split.
  { apply (mep_values_run mol dm _ vs); [| exact Hvs].
    cbn [atoms]. now apply inject_atoms_nonempty. }
  split.
  { rewrite length_zip_with, !length_map. lia. }
  intros k p Hk.
  assert (exists v, vs !! k = Some v) as (v & Hv).
  { apply lookup_lt_is_Some. rewrite <- Hlen. now apply lookup_lt_Some in Hk. }
  split.
  - intros Hon. split; [apply divisor_singular | split].
    + now apply nuclear_term_singular.
    + exists (fsub (nuclear_term mol (inject p)) v). split.
      * rewrite lookup_zip_with, (lookup_map_inject _ rcoords k p Hk), Hv. reflexivity.
      * apply xsub_not_finite_l. now apply nuclear_term_singular.
  - intros Hoff. split.
    + intros a Ha. specialize (Hoff a Ha). repeat split.
      * now apply dist_pos.
      * now apply divisor_regular.
      * now apply coulomb_regular.
    + now apply nuclear_term_regular.
Qed.

End CoulombClaims.

(** ** The embedding at work: concrete runs in binary64 *)

(** Three points on the x axis, the first two on the nuclei: the potential
    there is +inf, written to the file as it is; at (2, 0, 0) it is
    8/2 + 1/1 - 2/5, rounded. *)
Example mep_OH64_line :
  @mep float binary64 unit toy64 OH64 "pot.cube" dm64 (Some 3) (Some 1) (Some 1) ∅ =
  (Ok tt,
   set_rinv_orig_ OH64 {| cx := 2%float; cy := 0%float; cz := 0%float |},
   {[ "pot.cube" :=
        {| cube_comment := "Molecular electrostatic potential in real space";
           cube_atoms := atoms OH64;
           cube_shape := (3, 1, 1);
           cube_data := [infinity; infinity; 0x1.2666666666666p+2%float] |} ]}).
Proof. vm_compute. reflexivity. Qed.

(** A density matrix with a negative entry: the negative densities are
    stored as computed. *)
Example density_OH64_negative :
  @density float unit toy64 OH64 "den.cube" [[ (-2)%float ]] (Some 2) (Some 1) (Some 1) ∅ =
  (Ok tt,
   {[ "den.cube" :=
        {| cube_comment := "Electron density in real space (e/Bohr^3)";
           cube_atoms := atoms OH64;
           cube_shape := (2, 1, 1);
           cube_data := [(-2)%float; (-0.5)%float] |} ]}).
Proof. vm_compute. reflexivity. Qed.

(** Five points in blocks of two: chunks (0,2), (2,4), (4,5). *)
Example prange_5_by_2 : prange 0 5 2 = Ok [(0, 2); (2, 4); (4, 5)].
Proof. reflexivity. Qed.

(** A zero block size, which only an empty grid would give, is refused. *)
Example prange_zero_step : prange 0 0 (Z.min 8000 0) = Raise ValueError.
Proof. reflexivity. Qed.

(** A molecule without atoms: [Vnuc] is still the int 0 at line 80, and the
    origin has already been moved. *)
Example mep_no_atom :
  @mep float binary64 unit toy64
    {| atoms := []; basis := tt; rinv_orig := origin64 |}
    "pot.cube" dm64 (Some 2) (Some 1) (Some 1) ∅ =
  (Raise TypeError,
   {| atoms := []; basis := tt;
      rinv_orig := {| cx := 1%float; cy := 0%float; cz := 0%float |} |},
   ∅).
Proof. vm_compute. reflexivity. Qed.

(** ** Instances of the theorems *)

Section Instances64.

#[local] Existing Instance binary64.
#[local] Existing Instance toy64.

#[local] Abbreviation Mole64 := (@Mole float unit).
#[local] Abbreviation xyz64 := (@xyz float).
#[local] Abbreviation Cube64 := (@CubeFile float).
#[local] Abbreviation fs0 := (∅ : @filesys float).

Lemma mep_point_value_witness :
  exists (mol' : Mole64) (cube : Cube64),
    mep OH64 "pot.cube" dm64 (Some 3) (Some 1) (Some 1) fs0 =
      (Ok tt, mol', <[ "pot.cube" := cube ]> fs0) /\
    cube_shape cube = (3, 1, 1) /\
    length (cube_data cube) = length (line64 3) /\
    forall (k : nat) (p : xyz64),
      line64 3 !! k = Some p ->
      exists e : float,
        einsum_ij_ij (intor (set_rinv_orig_ OH64 p)) dm64 = Ok e /\
        cube_data cube !! k = Some (fsub (nuclear_term OH64 p) e).
Proof.
  apply (mep_point_value OH64 "pot.cube" dm64 3 1 1 fs0);
    [lia | lia | lia | discriminate |].
  vm_compute. repeat constructor.
Defined.

Lemma chunked_density_equals_batch_witness :
  density_rho OH64 dm64 (line64 5) 5 2 =
    Ok (eval_rho OH64 (eval_ao OH64 (line64 5) None) dm64) /\
  density_rho OH64 dm64 (line64 5) 5 (Z.min 8000 5) =
    density_rho OH64 dm64 (line64 5) 5 2.
Proof.
  apply (chunked_density_equals_batch OH64 dm64 (line64 5) 2).
  vm_compute. split; discriminate.
Defined.

Lemma density_chunks_partition_witness :
  exists (rho0 : list float) (chunks : list (Z * Z)),
    numpy_empty 3 = Ok rho0 /\
    prange 0 3 (density_blksize 3) = Ok chunks /\
    concat (map chunk_indices chunks) = range1 3 /\
    exists rho : list float,
      density_loop OH64 dm64 (line64 3) chunks rho0 None = Ok rho /\
      density OH64 "den.cube" dm64 (Some 3) (Some 1) (Some 1) fs0 =
        (Ok tt,
         <[ "den.cube" := {| cube_comment := "Electron density in real space (e/Bohr^3)";
                             cube_atoms := atoms OH64;
                             cube_shape := (3, 1, 1);
                             cube_data := rho |} ]> fs0).
Proof.
  destruct (density_chunks_partition OH64 "den.cube" dm64 3 1 1 fs0)
    as (rho0 & chunks & Hempty & Hpr & _ & _ & Hidx & _ & Hrun); [lia | lia | lia |].
  exists rho0, chunks. repeat split; assumption.
Defined.

Lemma density_stores_contraction_witness :
  exists cube : Cube64,
    density OH64 "den.cube" dm64 (Some 3) (Some 1) (Some 1) fs0 =
      (Ok tt, <[ "den.cube" := cube ]> fs0) /\
    cube_data cube = eval_rho OH64 (eval_ao OH64 (line64 3) None) dm64 /\
    forall (k : nat) (p : xyz64),
      line64 3 !! k = Some p ->
      cube_data cube !! k = Some (rho_at OH64 (ao_at OH64 p) dm64).
Proof.
  apply (density_stores_contraction OH64 "den.cube" dm64 3 1 1 fs0); lia.
Defined.

Lemma shape_mismatch_is_fatal_witness :
  density_finish {| cc_mol := OH64; cc_nx := 2; cc_ny := 2; cc_nz := 2 |}
    [1%float; 2%float; 3%float] "den.cube" fs0 = (Raise ValueError, fs0) /\
  mep_finish {| cc_mol := OH64; cc_nx := 2; cc_ny := 2; cc_nz := 2 |}
    [1%float; 2%float; 3%float] 2 2 2 "den.cube" fs0 = (Raise ValueError, fs0).
Proof.
  apply (shape_mismatch_is_fatal OH64 2 2 2).
  - reflexivity.
  - simpl. lia.
Defined.

Lemma mep_leaves_origin_at_last_point_witness :
  exists (plast : xyz64) (mol' : Mole64) (fs' : @filesys float),
    last (line64 3) = Some plast /\
    mep OH64 "pot.cube" dm64 (Some 3) (Some 1) (Some 1) fs0 = (Ok tt, mol', fs') /\
    snd (Vele_loop OH64 dm64 (line64 3) []) = mol' /\
    mol' = foldl set_rinv_orig_ OH64 (line64 3) /\
    rinv_orig mol' = plast /\
    atoms mol' = atoms OH64 /\ basis mol' = basis OH64 /\
    (rinv_orig OH64 <> plast -> mol' <> OH64).
Proof.
  apply (mep_leaves_origin_at_last_point OH64 "pot.cube" dm64 3 1 1 fs0);
    [lia | lia | lia | discriminate |].
  vm_compute. repeat constructor.
Defined.

Lemma invalid_grid_rejected_witness :
  density OH64 "den.cube" dm64 (Some 0) (Some 80) (Some 80) fs0 =
    (Raise ValueError, fs0) /\
  mep OH64 "den.cube" dm64 (Some 0) (Some 80) (Some 80) fs0 =
    (Raise ValueError, OH64, fs0).
Proof.
  apply (invalid_grid_rejected OH64 "den.cube" dm64 0 80 80 fs0).
  left. lia.
Defined.

Lemma default_grid_is_80_witness :
  exists (mol' : Mole64) (cube : Cube64),
    mep OH64 "pot.cube" dm64 None None None fs0 =
      (Ok tt, mol', <[ "pot.cube" := cube ]> fs0) /\
    cube_shape cube = (80, 80, 80) /\
    Z.of_nat (length (cube_data cube)) = 512000.
Proof.
  destruct (default_grid_is_80 OH64 "pot.cube" dm64 fs0) as (_ & _ & _ & _ & Hmep).
  destruct Hmep as (mol' & cube & Hrun & Hshape & Hlen & _).
  - discriminate.
  - apply Forall_true. intros p. reflexivity.
  - exists mol', cube. split; [exact Hrun | split; [exact Hshape | exact Hlen]].
Defined.

End Instances64.

(** ** The nuclear term in float64 *)

Section Float64.

#[local] Existing Instance binary64.

Ltac sf_cases a b :=
  destruct (Prim2SF a) as [[] | [] | | [] ? ?], (Prim2SF b) as [[] | [] | | [] ? ?];
  simpl; tauto.

Lemma sub_self_64 x : SF_zero_or_nan (Prim2SF (x - x)%float).
Proof.
  rewrite FloatAxioms.sub_spec. unfold SF64sub, SFsub.
  destruct (Prim2SF x) as [[] | [] | | s m e];
    try (left; reflexivity); try (right; reflexivity).
  left. rewrite Z.sub_diag. reflexivity.
Qed.

Lemma mul_zero_or_nan a b :
  SF_zero_or_nan (Prim2SF a) -> SF_zero_or_nan (Prim2SF b) ->
  SF_zero_or_nan (Prim2SF (a * b)%float).
Proof.
  rewrite FloatAxioms.mul_spec. unfold SF64mul, SFmul.
  intros [Ha | Ha] [Hb | Hb]; rewrite Ha, ?Hb; [left | right | right | right]; reflexivity.
Qed.

Lemma add_zero_or_nan a b :
  SF_zero_or_nan (Prim2SF a) -> SF_zero_or_nan (Prim2SF b) ->
  SF_zero_or_nan (Prim2SF (a + b)%float).
Proof.
  rewrite FloatAxioms.add_spec. unfold SF64add, SFadd.
  intros [Ha | Ha] [Hb | Hb]; rewrite Ha, ?Hb; [left | right | right | right]; reflexivity.
Qed.

Lemma sqrt_zero_or_nan a :
  SF_zero_or_nan (Prim2SF a) -> SF_zero_or_nan (Prim2SF (sqrt a)).
Proof.
  rewrite FloatAxioms.sqrt_spec. unfold SF64sqrt, SFsqrt.
  intros [Ha | Ha]; rewrite Ha; [left | right]; reflexivity.
Qed.

Lemma div_by_zero_or_nan a b :
  SF_zero_or_nan (Prim2SF b) -> SF_nonfinite (Prim2SF (a / b)%float).
Proof.
  rewrite FloatAxioms.div_spec. unfold SF64div, SFdiv.
  intros [Hb | Hb]; rewrite Hb; destruct (Prim2SF a); simpl; exact I.
Qed.

Lemma add_nonfinite_l a b :
  SF_nonfinite (Prim2SF a) -> SF_nonfinite (Prim2SF (a + b)%float).
Proof. rewrite FloatAxioms.add_spec. unfold SF64add, SFadd. sf_cases a b. Qed.

Lemma add_nonfinite_r a b :
  SF_nonfinite (Prim2SF b) -> SF_nonfinite (Prim2SF (a + b)%float).
Proof. rewrite FloatAxioms.add_spec. unfold SF64add, SFadd. sf_cases a b. Qed.

Lemma sub_nonfinite_l a b :
  SF_nonfinite (Prim2SF a) -> SF_nonfinite (Prim2SF (a - b)%float).
Proof. rewrite FloatAxioms.sub_spec. unfold SF64sub, SFsub. sf_cases a b. Qed.

Lemma nonfinite_is_finite v :
  SF_nonfinite (Prim2SF v) -> PrimFloat.is_finite v = false.
Proof.
  unfold PrimFloat.is_finite, is_nan, is_infinity.
  rewrite !FloatAxioms.eqb_spec, FloatAxioms.abs_spec.
  destruct (Prim2SF v) as [[] | [] | | [] ? ?]; simpl; try tauto; intros _; reflexivity.
Qed.

(** Rounding keeps the sign it is given. *)
Lemma round_aux_not_negative (m e : Z) (l : location) :
  SF_not_negative (binary_round_aux prec emax false m e l).
Proof.
  unfold binary_round_aux.
  destruct (shr_fexp prec emax m e l) as [mrs e'].
  destruct (shr_fexp prec emax _ e' loc_Exact) as [mrs' e''].
  destruct (shr_m mrs'); simpl; try reflexivity.
  destruct (e'' <=? emax - prec); reflexivity.
Qed.

Lemma mul_self_not_negative d : SF_not_negative (Prim2SF (d * d)%float).
Proof.
  rewrite FloatAxioms.mul_spec. unfold SF64mul, SFmul.
  destruct (Prim2SF d) as [[] | [] | | [] m e]; simpl; try reflexivity;
    apply round_aux_not_negative.
Qed.

Lemma sqrt_not_negative a :
  SF_not_negative (Prim2SF a) -> SF_not_negative (Prim2SF (sqrt a)).
Proof.
  rewrite FloatAxioms.sqrt_spec. unfold SF64sqrt, SFsqrt.
  destruct (Prim2SF a) as [[] | [] | | [] m e]; simpl; try tauto; try discriminate.
  intros _. destruct (SFsqrt_core_binary prec emax (Z.pos m) e) as [[mz ez] lz].
  apply round_aux_not_negative.
Qed.

Lemma div_not_negative a b :
  SF_not_negative (Prim2SF a) -> SF_not_negative (Prim2SF b) ->
  SF_not_negative (Prim2SF (a / b)%float).
Proof.
  rewrite FloatAxioms.div_spec. unfold SF64div, SFdiv.
  destruct (Prim2SF a) as [[] | [] | | [] m e], (Prim2SF b) as [[] | [] | | [] m' e'];
    simpl; try tauto; try discriminate.
  intros _ _.
  destruct (SFdiv_core_binary prec emax (Z.pos m) e (Z.pos m') e') as [[mz ez] lz].
  apply round_aux_not_negative.
Qed.

Lemma of_uint63_not_negative (n : PrimInt63.int) :
  SF_not_negative (Prim2SF (of_uint63 n)).
Proof.
  rewrite FloatAxioms.of_uint63_spec. unfold binary_normalize.
  pose proof (Uint63.to_Z_bounded n) as Hn.
  destruct (Uint63.to_Z n) as [| m | m]; [reflexivity | | lia].
  unfold binary_round.
  destruct (shl_align m 0 _) as [mz ez].
  apply round_aux_not_negative.
Qed.

Lemma float_of_Z_not_negative (z : Z) :
  0 <= z -> SF_not_negative (Prim2SF (float_of_Z z)).
Proof.
  intros Hz. unfold float_of_Z.
  destruct (Z.ltb_spec z 0); [lia |]. apply of_uint63_not_negative.
Qed.

Lemma add_zero_r x :
  SF_not_negative (Prim2SF x) -> (x + 0)%float = x.
Proof.
  intros Hx. apply Prim2SF_inj. rewrite FloatAxioms.add_spec. unfold SF64add, SFadd.
  change (Prim2SF 0) with (S754_zero false).
  destruct (Prim2SF x) as [[] | [] | | [] m e]; simpl in Hx; try discriminate; reflexivity.
Qed.

Lemma add_zero_l y :
  SF_not_negative (Prim2SF y) -> (0 + y)%float = y.
Proof.
  intros Hy. apply Prim2SF_inj. rewrite FloatAxioms.add_spec. unfold SF64add, SFadd.
  change (Prim2SF 0) with (S754_zero false).
  destruct (Prim2SF y) as [[] | [] | | [] m e]; simpl in Hy; try discriminate; reflexivity.
Qed.

Lemma sub_zero_square d : ((0 - d) * (0 - d))%float = (d * d)%float.
Proof.
  apply Prim2SF_inj. rewrite !FloatAxioms.mul_spec, FloatAxioms.sub_spec.
  unfold SF64mul, SFmul, SF64sub, SFsub.
  change (Prim2SF 0) with (S754_zero false).
  destruct (Prim2SF d) as [[] | [] | | [] m e]; reflexivity.
Qed.

(** The squared distance of (d, 0, 0) from the origin, as line 72 computes
    it, is d * d. *)
Lemma sum_of_squares_on_axis d :
  ((0 - d) * (0 - d) + (0 - 0) * (0 - 0) + (0 - 0) * (0 - 0))%float = (d * d)%float.
Proof.
  rewrite sub_zero_square.
  change ((0 - 0) * (0 - 0))%float with 0%float.
  rewrite (add_zero_r (d * d)) by apply mul_self_not_negative.
  apply add_zero_r, mul_self_not_negative.
Qed.

Lemma nuclear_single_atom64 (Z : Z) (d : float) :
  0 <= Z ->
  nuclear_term (single_atom64 Z) (on_x_axis d) = (float_of_Z Z / sqrt (d * d))%float.
Proof.
  intros HZ.
  change (nuclear_term (single_atom64 Z) (on_x_axis d))
    with (float_of_Z 0 +
          float_of_Z Z /
          sqrt ((0 - d) * (0 - d) + (0 - 0) * (0 - 0) + (0 - 0) * (0 - 0)))%float.
  rewrite sum_of_squares_on_axis.
  change (float_of_Z 0) with 0%float.
  apply add_zero_l, div_not_negative.
  - now apply float_of_Z_not_negative.
  - apply sqrt_not_negative, mul_self_not_negative.
Qed.

Lemma coulomb_on_atom64 (Z : Z) (p : @xyz float) :
  SF_nonfinite (Prim2SF (coulomb Z p p)).
Proof.
  unfold coulomb. cbn [fdiv fsqrt fadd fmul fsub of_int binary64].
  apply div_by_zero_or_nan, sqrt_zero_or_nan.
  repeat apply add_zero_or_nan; apply mul_zero_or_nan; apply sub_self_64.
Qed.

Lemma coulomb_divisor {F : Type} {N : Numeric F} (Z : Z) (r p : @xyz F) :
  coulomb Z r p = fdiv (of_int Z) (divisor r p).
Proof. reflexivity. Qed.

(** On the atom the divisor is +0 or NaN. *)
Lemma divisor_on_atom64 (p : @xyz float) : SF_zero_or_nan (Prim2SF (divisor p p)).
Proof.
  unfold divisor. cbn [fsqrt fadd fmul fsub binary64].
  apply sqrt_zero_or_nan.
  repeat apply add_zero_or_nan; apply mul_zero_or_nan; apply sub_self_64.
Qed.

(** A quotient by a zero of either sign is an infinity or NaN. *)
Lemma div_by_zero64 a b :
  (b =? 0)%float = true -> SF_nonfinite (Prim2SF (a / b)%float).
Proof.
  rewrite FloatAxioms.eqb_spec, FloatAxioms.div_spec. unfold SF64div, SFdiv.
  change (Prim2SF 0) with (S754_zero false).
  destruct (Prim2SF a) as [[] | [] | | [] ? ?], (Prim2SF b) as [[] | [] | | [] ? ?];
    simpl; intros Hb; try exact I; discriminate.
Qed.

(** One non-finite term makes the whole sum of lines 67-72 non-finite. *)
Lemma nuclear_fold_nonfinite64 {Basis : Type} (l : list (Z * @xyz float)) (p : @xyz float) :
  forall acc : float,
    (SF_nonfinite (Prim2SF acc) \/
     exists a, a ∈ l /\ SF_nonfinite (Prim2SF (coulomb (fst a) (snd a) p))) ->
    SF_nonfinite
      (Prim2SF (foldl (fun acc a => fadd acc (coulomb (fst a) (snd a) p)) acc l)).
Proof.
  induction l as [| a l IH]; intros acc Hcase.
  - simpl. destruct Hcase as [Hacc | (a & Ha & _)]; [exact Hacc |].
    now apply not_elem_of_nil in Ha.
  - cbn [foldl]. apply IH.
    destruct Hcase as [Hacc | (b & Hb & Hbp)].
    + left. now apply add_nonfinite_l.
    + apply elem_of_cons in Hb as [-> | Hb].
      * left. now apply add_nonfinite_r.
      * right. exists b. split; assumption.
Qed.

Lemma Zrange_elem (lo x : Z) (n : nat) :
  lo <= x < lo + Z.of_nat n -> In x (Zrange lo n).
Proof.
  intros Hx. unfold Zrange. apply in_map_iff.
  exists (Z.to_nat (x - lo)). split; [lia |]. apply in_seq. lia.
Qed.

Lemma all_pairs_spec {A B} (f : A -> B -> bool) (la : list A) (lb : list B) :
  all_pairs f la lb = true ->
  forall a b, In a la -> In b lb -> f a b = true.
Proof.
  intros Hall a b Ha Hb. unfold all_pairs in Hall.
  rewrite forallb_forall in Hall. specialize (Hall a Ha).
  rewrite forallb_forall in Hall. exact (Hall b Hb).
Qed.

(** Squaring and taking the root gives the distance back for the 64064
    distances m * 2^k with 1 <= m <= 64 and -500 <= k <= 500. *)
Lemma sqrt_square_family_ok :
  all_pairs (fun m k => sqrt_square_ok (scaled m k)) (Zrange 1 64) (Zrange (-500) 1001)
  = true.
Proof. vm_compute. reflexivity. Qed.

Lemma sqrt_square_scaled (m k : Z) :
  1 <= m <= 64 -> -500 <= k <= 500 ->
  sqrt (scaled m k * scaled m k) = scaled m k.
Proof.
  intros Hm Hk.
  apply FloatAxioms.Leibniz.eqb_spec.
  apply (all_pairs_spec _ _ _ sqrt_square_family_ok).
  - apply Zrange_elem. lia.
  - apply Zrange_elem. lia.
Qed.

End Float64.

(** ** The claims about the nuclear term *)

Section NuclearClaims.

(** C3 (amended).  For one atom of charge Z >= 0 at the origin, the nuclear
    term that the loop of [mep] computes in float64 at a grid point
    (d, 0, 0) is the float64 quotient Z / sqrt(d * d), for every d; it is
    Z / d whenever sqrt(d * d) = d, which holds in exact arithmetic for
    every d > 0 and in float64 for the distances m * 2^k, 1 <= m <= 64,
    -500 <= k <= 500.  In general, for every carrier of the arithmetic, the
    loop yields at every point the sum of Z_i / |r_i - p| over all the
    atoms, in the order of the atoms, nothing left out or cut off; in exact
    arithmetic and away from the atoms that is the real number
    [coulomb_sum]. *)
Theorem nuclear_term_on_axis (Z : Z) :
  0 <= Z ->
  (forall (d : float) (coords : list (@xyz float)) (k : nat),
     coords !! k = Some (on_x_axis d) ->
     exists Vnuc : list float,
       @Vnuc_loop float binary64 unit (single_atom64 Z) coords
         (range1 (natm (single_atom64 Z))) (PyInt 0) = Ok (NdArray Vnuc) /\
       Vnuc !! k = Some (float_of_Z Z / sqrt (d * d))%float /\
       (sqrt (d * d) = d -> Vnuc !! k = Some (float_of_Z Z / d)%float)) /\
  (forall m k : BinNums.Z,
     1 <= m <= 64 -> -500 <= k <= 500 ->
     sqrt (scaled m k * scaled m k) = scaled m k) /\
  (forall (F : Type) (N : Numeric F) (Basis : Type) (mol : @Mole F Basis)
          (coords : list (@xyz F)),
     atoms mol <> [] ->
     Vnuc_loop mol coords (range1 (natm mol)) (PyInt 0) =
       Ok (NdArray (map (nuclear_term mol) coords))) /\
  (forall (d : R) (l : list (BinNums.Z * Rxyz)) (p : Rxyz),
     (0 < d)%R ->
     @nuclear_term xreal xreal_numeric unit
       {| atoms := inject_atoms [(Z, (0, 0, 0)%R)]; basis := tt;
          rinv_orig := inject (0, 0, 0)%R |}
       (inject (d, 0, 0)%R) = Fin (IZR Z / d) /\
     ((forall a, a ∈ l -> snd a <> p) ->
      @nuclear_term xreal xreal_numeric unit
        {| atoms := inject_atoms l; basis := tt; rinv_orig := inject (0, 0, 0)%R |}
        (inject p) = Fin (coulomb_sum l p))).
Proof.
  intros HZ. split; [| split; [| split]].
  - intros d coords k Hk.
    exists (map (@nuclear_term float binary64 unit (single_atom64 Z)) coords).
    split; [apply Vnuc_loop_run; discriminate |].
    change (map ?f coords) with (f <$> coords).
    rewrite list_lookup_fmap, Hk. cbn [fmap option_fmap option_map].
    rewrite nuclear_single_atom64 by assumption.
    split; [reflexivity |]. intros Hroot. now rewrite Hroot.
  - apply sqrt_square_scaled.
  - intros F N Basis mol coords Hat. now apply Vnuc_loop_run.
  - intros d l p Hd. split.
    + rewrite nuclear_term_regular.
      * unfold coulomb_sum. cbn [foldl fst snd].
        rewrite dist_on_axis by assumption. f_equal. apply Rplus_0_l.
      * intros a Ha. apply list_elem_of_singleton in Ha as ->.
        cbn [snd]. intros Heq. injection Heq as Heq. lra.
    + intros Hoff. now apply nuclear_term_regular.
Qed.

(** The distance 2^-600: its square underflows to 0 in float64. *)
Lemma nuclear_term_underflow :
  let d := Z.ldexp 1 (-600) in
  (0 <? d)%float = true /\
  @Vnuc_loop float binary64 unit (single_atom64 8) [on_x_axis d]
    (range1 (natm (single_atom64 8))) (PyInt 0) = Ok (NdArray [infinity]) /\
  infinity <> (float_of_Z 8 / d)%float.
Proof.
  split; [vm_compute; reflexivity | split; [vm_compute; reflexivity |]].
  intros Heq. apply (f_equal is_infinity) in Heq. vm_compute in Heq. discriminate.
Qed.

(** C7 (amended).  [mep] does not guard the division Z / |r_i - p|.  In
    float64, with at least one atom and no raising contraction, the values
    are returned without an error; at a grid point that is the position of
    an atom, and at any grid point where the computed divisor is zero for
    some atom, the nuclear term is an infinity or NaN and so is the value of
    the potential there.  In exact arithmetic the divisor of a grid point
    that is the position of no atom is a positive real, every term is the
    real quotient and the nuclear term is finite; in float64 the squared
    distance of such a point can underflow to zero, and the point is then
    among those where the computed divisor is zero. *)
Theorem singularity_propagates :
  (forall (Basis : Type) (E : @Engine float Basis) (mol : @Mole float Basis)
          (dm : @matrix float) (coords : list (@xyz float)),
     atoms mol <> [] ->
     Forall (fun q => is_ok (@electronic_term float binary64 Basis E mol dm q) = true)
            coords ->
     exists (MEP : list float) (mol' : @Mole float Basis),
       @mep_values float binary64 Basis E mol dm coords = (Ok MEP, mol') /\
       length MEP = length coords /\
       forall (k : nat) (p : @xyz float),
         coords !! k = Some p ->
         (exists a, a ∈ atoms mol /\
                    (snd a = p \/
                     (@divisor float binary64 (snd a) p =? 0)%float = true)) ->
         PrimFloat.is_finite (@nuclear_term float binary64 Basis mol p) = false /\
         exists v, MEP !! k = Some v /\ PrimFloat.is_finite v = false) /\
  (forall (l : list (Z * Rxyz)) (p : Rxyz),
     (forall a, a ∈ l -> snd a <> p) ->
     (forall a, a ∈ l ->
        (0 < dist (snd a) p)%R /\
        @divisor xreal xreal_numeric (inject (snd a)) (inject p) = Fin (dist (snd a) p) /\
        @coulomb xreal xreal_numeric (fst a) (inject (snd a)) (inject p) =
          Fin (IZR (fst a) / dist (snd a) p)) /\
     @nuclear_term xreal xreal_numeric unit
       {| atoms := inject_atoms l; basis := tt; rinv_orig := inject (0, 0, 0)%R |}
       (inject p) = Fin (coulomb_sum l p)).
Proof.
  split.
  - intros Basis E mol dm coords Hat Hok.
    destruct (@electronic_values float binary64 Basis E mol dm coords Hok) as (vs & Hvs).
    pose proof (Forall2_length _ _ _ Hvs) as Hlen.
    do 2 eexists.
    split; [apply (@mep_values_run float binary64 Basis E mol dm coords vs Hat Hvs) |].
    split; [rewrite length_zip_with, length_map; lia |].
    intros k p Hk (a & Ha & Hcase).
    assert (SF_nonfinite (Prim2SF (@nuclear_term float binary64 Basis mol p))) as Hnuc.
    { unfold nuclear_term. apply (@nuclear_fold_nonfinite64 Basis). right.
      exists a. split; [exact Ha |].
      rewrite coulomb_divisor. cbn [fdiv binary64].
      destruct Hcase as [-> | Hzero].
      - apply div_by_zero_or_nan, divisor_on_atom64.
      - now apply div_by_zero64. }
    split; [now apply nonfinite_is_finite |].
    assert (exists v, vs !! k = Some v) as (v & Hv).
    { apply lookup_lt_is_Some. rewrite <- Hlen. now apply lookup_lt_Some in Hk. }
    exists (@fsub float binary64 (@nuclear_term float binary64 Basis mol p) v). split.
    + now apply zip_with_lookup_sub.
    + apply nonfinite_is_finite. cbn [fsub binary64]. now apply sub_nonfinite_l.
  - intros l p Hoff. split.
    + intros a Ha. specialize (Hoff a Ha). split; [now apply dist_pos | split].
      * destruct (snd a) as [[rx ry] rz], p as [[px py] pz].
        apply (divisor_regular (rx, ry, rz) (px, py, pz) Hoff).
      * now apply coulomb_regular.
    + now apply nuclear_term_regular.
Qed.

(** A grid point at distance 2^-600 from the atom, not on it: the squared
    distance underflows, the divisor is zero and +inf is returned. *)
Lemma off_atom_zero_divisor :
  let p := on_x_axis (Z.ldexp 1 (-600)) in
  p <> origin64 /\
  @divisor float binary64 origin64 p = 0%float /\
  fst (@mep_values float binary64 unit toy64 (single_atom64 8) dm64 [p]) =
    Ok [infinity].
Proof.
  split; [| split; vm_compute; reflexivity].
  intros Heq. apply (f_equal (fun q => (cx q =? 0)%float)) in Heq.
  vm_compute in Heq. discriminate.
Qed.

Lemma nuclear_term_on_axis_witness :
  exists Vnuc : list float,
    @Vnuc_loop float binary64 unit (single_atom64 8) [on_x_axis 2%float]
      (range1 (natm (single_atom64 8))) (PyInt 0) = Ok (NdArray Vnuc) /\
    Vnuc !! 0%nat = Some (float_of_Z 8 / sqrt (2 * 2))%float.
Proof.
  destruct (proj1 (nuclear_term_on_axis 8 ltac:(lia)) 2%float [on_x_axis 2%float] 0%nat eq_refl)
    as (Vnuc & Hrun & Hval & _).
  exists Vnuc. split; [exact Hrun | exact Hval].
Defined.

Lemma singularity_propagates_witness :
  exists (MEP : list float) (mol' : @Mole float unit),
    @mep_values float binary64 unit toy64 OH64 dm64 (line64 3) = (Ok MEP, mol') /\
    length MEP = length (line64 3).
Proof.
  destruct (proj1 singularity_propagates unit toy64 OH64 dm64 (line64 3))
    as (MEP & mol' & Hrun & Hlen & _).
  - discriminate.
  - apply Forall_true. intros p. reflexivity.
  - exists MEP, mol'. split; [exact Hrun | exact Hlen].
Defined.

End NuclearClaims.

(** * Further properties of the two functions *)

(** ** The loops of [mep] under failure and repetition *)

Section PotentialMore.

Context {F : Type} {N : Numeric F} {Basis : Type} {E : @Engine F Basis}.
Implicit Types (mol : @Mole F Basis) (dm : @matrix F) (coords : list (@xyz F)).

(** The loop over the atoms reads the atoms only. *)
Lemma Vnuc_loop_atoms_only mol (q : xyz) coords (idx : list Z) : forall Vnuc : pyval,
  Vnuc_loop (set_rinv_orig_ mol q) coords idx Vnuc = Vnuc_loop mol coords idx Vnuc.
Proof.
  induction idx as [| i idx IH]; intros Vnuc; [reflexivity |].
  cbn [Vnuc_loop].
  change (Vnuc_step (set_rinv_orig_ mol q) coords Vnuc i)
    with (Vnuc_step mol coords Vnuc i).
  destruct (Vnuc_step mol coords Vnuc i); [apply IH | reflexivity].
Qed.

(** The loop over the atoms never raises. *)
Lemma Vnuc_loop_total mol coords :
  exists Vnuc : pyval,
    Vnuc_loop mol coords (range1 (natm mol)) (PyInt 0) = Ok Vnuc /\
    (atoms mol = [] -> Vnuc = PyInt 0) /\
    (atoms mol <> [] -> Vnuc = NdArray (map (nuclear_term mol) coords)).
Proof.
  destruct (atoms mol) as [| a l] eqn:Hat.
  - exists (PyInt 0). split; [now apply Vnuc_loop_no_atom | split; [reflexivity |]].
    intros Hne. contradiction.
  - exists (NdArray (map (nuclear_term mol) coords)).
    split; [apply Vnuc_loop_run; rewrite Hat; discriminate | split; [discriminate |]].
    reflexivity.
Qed.

(** Whatever the outcome of the loop over the points, the molecule it
    leaves is the one it got, or that one with the origin at a grid point. *)
Lemma Vele_loop_final dm coords : forall (mol0 : Mole) (Vele : list F)
    (r : result (list F)) (mol' : Mole),
  Vele_loop mol0 dm coords Vele = (r, mol') ->
  (coords = [] /\ mol' = mol0) \/
  (exists q, q ∈ coords /\ mol' = set_rinv_orig_ mol0 q).
Proof.
  induction coords as [| p coords IH]; intros mol0 Vele r mol' Hrun.
  - left. simpl in Hrun. injection Hrun as _ <-. split; reflexivity.
  - right. cbn [Vele_loop] in Hrun.
    destruct (einsum_ij_ij (intor (set_rinv_orig_ mol0 p)) dm) as [v | e].
    + destruct (IH _ _ _ _ Hrun) as [[_ ->] | (q & Hq & ->)].
      * exists p. split; [left | reflexivity].
      * exists q. split; [now right | reflexivity].
    + injection Hrun as _ <-. exists p. split; [left | reflexivity].
Qed.

(** A successful loop over the points means that every contraction
    succeeded. *)
Lemma Vele_loop_inv mol dm coords : forall (mol0 : Mole) (Vele Vele' : list F)
    (mol' : Mole),
  (forall p, set_rinv_orig_ mol0 p = set_rinv_orig_ mol p) ->
  Vele_loop mol0 dm coords Vele = (Ok Vele', mol') ->
  Forall (fun p => is_ok (electronic_term mol dm p) = true) coords.
Proof.
  induction coords as [| p coords IH]; intros mol0 Vele Vele' mol' Hsame Hrun.
  - constructor.
  - cbn [Vele_loop] in Hrun. rewrite Hsame in Hrun.
    constructor.
    + unfold electronic_term.
      destruct (einsum_ij_ij (intor (set_rinv_orig_ mol p)) dm); [reflexivity |].
      discriminate.
    + destruct (einsum_ij_ij (intor (set_rinv_orig_ mol p)) dm) as [v | e];
        [| discriminate].
      apply (IH (set_rinv_orig_ mol p) _ _ _ (fun q => eq_refl) Hrun).
Qed.

(** The first raising contraction ends the loop. *)
Lemma Vele_loop_app_raise mol dm (e : exn) (p : xyz) (pre rest : list xyz) :
  Forall (fun q => is_ok (electronic_term mol dm q) = true) pre ->
  electronic_term mol dm p = Raise e ->
  forall (mol0 : Mole) (Vele : list F),
    (forall q, set_rinv_orig_ mol0 q = set_rinv_orig_ mol q) ->
    Vele_loop mol0 dm (pre ++ p :: rest) Vele = (Raise e, set_rinv_orig_ mol p).
Proof.
  intros Hpre Hp. induction Hpre as [| q pre Hq _ IH]; intros mol0 Vele Hsame.
  - cbn [app Vele_loop]. rewrite Hsame. unfold electronic_term in Hp. now rewrite Hp.
  - cbn [app Vele_loop]. rewrite Hsame. unfold electronic_term in Hq.
    destruct (einsum_ij_ij (intor (set_rinv_orig_ mol q)) dm) as [v |];
      [| discriminate].
    apply IH. intros q'. reflexivity.
Qed.

Lemma mep_values_origin_independent mol dm coords (q : xyz) :
  coords <> [] ->
  mep_values (set_rinv_orig_ mol q) dm coords = mep_values mol dm coords.
Proof.
  intros Hne. unfold mep_values.
  change (natm (set_rinv_orig_ mol q)) with (natm mol).
  rewrite Vnuc_loop_atoms_only.
  destruct (Vnuc_loop_total mol coords) as (Vnuc & -> & _).
  destruct coords as [| p rest]; [contradiction | reflexivity].
Qed.

End PotentialMore.


Section PotentialExtras.

Context {F : Type} {N : Numeric F} {Basis : Type} {E : @Engine F Basis}.
Implicit Types (mol : @Mole F Basis) (dm : @matrix F) (coords : list (@xyz F)).

(** X1.  For a molecule without atoms, lines 66-82 never produce values:
    [Vnuc] is still the Python int 0 when line 80 subtracts the list [Vele]
    from it.  When no contraction raises, the error is that TypeError, and it
    comes after the loop over the points has moved the origin through all of
    them. *)
Theorem mep_values_without_atoms mol dm coords :
  atoms mol = [] ->
  (forall (r : result (list F)) (mol' : Mole),
     mep_values mol dm coords = (r, mol') -> exists e, r = Raise e) /\
  (Forall (fun p => is_ok (electronic_term mol dm p) = true) coords ->
   mep_values mol dm coords = (Raise TypeError, foldl set_rinv_orig_ mol coords)).
Proof.
  intros Hat. split.
  - intros r mol' Hrun. unfold mep_values in Hrun.
    rewrite Vnuc_loop_no_atom in Hrun by assumption.
    destruct (Vele_loop mol dm coords []) as [[Vele | e] m];
      injection Hrun as <- _; eexists; reflexivity.
  - intros Hok. destruct (electronic_values mol dm coords Hok) as (vs & Hvs).
    now apply (mep_values_no_atom mol dm coords vs).
Qed.

(** X2.  When the contraction raises at a grid point (a density matrix that
    does not fit the rinv matrix), [mep] raises that error: the points after
    it are not visited, the molecule is left with its origin at that point,
    and no file is written. *)
Theorem mep_contraction_error mol (outfile : string) dm (nx ny nz : Z) (fs : filesys)
    (e : exn) (p : xyz) (pre rest : list xyz) :
  0 < nx -> 0 < ny -> 0 < nz ->
  get_coords {| cc_mol := mol; cc_nx := nx; cc_ny := ny; cc_nz := nz |} =
    pre ++ p :: rest ->
  Forall (fun q => is_ok (electronic_term mol dm q) = true) pre ->
  electronic_term mol dm p = Raise e ->
  mep mol outfile dm (Some nx) (Some ny) (Some nz) fs =
    (Raise e, set_rinv_orig_ mol p, fs).
Proof.
  intros Hx Hy Hz Hcoords Hpre Hp. unfold mep. simpl default.
  rewrite cube_c_init_positive by assumption.
  rewrite Hcoords. unfold mep_values.
  destruct (Vnuc_loop_total mol (pre ++ p :: rest)) as (Vnuc & -> & _).
  rewrite (Vele_loop_app_raise mol dm e p pre rest Hpre Hp mol []) by reflexivity.
  reflexivity.
Qed.

(** X3.  Running lines 66-82 again on the molecule that a first run left
    behind gives the same outcome and leaves the same molecule: the origin
    that the first run moved is overwritten before any integral is
    evaluated. *)
Theorem mep_values_repeatable mol dm coords :
  mep_values (snd (mep_values mol dm coords)) dm coords = mep_values mol dm coords.
Proof.
  destruct (mep_values mol dm coords) as [r mol'] eqn:Hrun. cbn [snd].
  pose proof Hrun as Hfinal. unfold mep_values in Hfinal.
  destruct (Vnuc_loop_total mol coords) as (Vnuc & HVnuc & _).
  rewrite HVnuc in Hfinal.
  destruct (Vele_loop mol dm coords []) as [rv m] eqn:Hv.
  assert (m = mol') as -> by (destruct rv; injection Hfinal as _ <-; reflexivity).
  destruct (Vele_loop_final dm coords mol [] rv mol' Hv) as [[_ ->] | (q & Hq & ->)].
  - exact Hrun.
  - rewrite mep_values_origin_independent; [exact Hrun |].
    intros ->. now apply not_elem_of_nil in Hq.
Qed.


(** X5.  If [mep] returns normally then the grid was valid, the molecule has
    at least one atom and the contraction succeeded at every grid point: the
    conditions under which it is shown to succeed are the only ones. *)
Theorem mep_success_requires mol (outfile : string) dm (nx ny nz : Z) (fs fs' : filesys)
    (mol' : Mole) :
  mep mol outfile dm (Some nx) (Some ny) (Some nz) fs = (Ok tt, mol', fs') ->
  0 < nx /\ 0 < ny /\ 0 < nz /\
  atoms mol <> [] /\
  Forall (fun p => is_ok (electronic_term mol dm p) = true)
         (get_coords {| cc_mol := mol; cc_nx := nx; cc_ny := ny; cc_nz := nz |}).
Proof.
  unfold mep. simpl default. intros Hrun.
  destruct (cube_c_init mol nx ny nz) as [cc | e] eqn:Hcc; [| discriminate].
  destruct (cube_c_init_inv mol nx ny nz cc Hcc) as (Hx & Hy & Hz & ->).
  set (cc := {| cc_mol := mol; cc_nx := nx; cc_ny := ny; cc_nz := nz |}) in *.
  destruct (mep_values mol dm (get_coords cc)) as [[MEP | e] m] eqn:Hval;
    [| discriminate].
  clear Hrun. unfold mep_values in Hval.
  destruct (Vnuc_loop_total mol (get_coords cc)) as (Vnuc & HVnuc & Hnone & _).
  rewrite HVnuc in Hval.
  destruct (Vele_loop mol dm (get_coords cc) []) as [[Vele | e] m'] eqn:Hv;
    [| discriminate].
  repeat split; try assumption.
  - intros Hat. rewrite (Hnone Hat) in Hval. discriminate.
  - apply (Vele_loop_inv mol dm _ mol [] Vele m' (fun q => eq_refl) Hv).
Qed.

End PotentialExtras.

(** ** The files of [density], and the two functions in sequence *)

Section DensityExtras.

Context {F : Type} {Basis : Type} {E : @Engine F Basis}.
Implicit Types (mol : @Mole F Basis) (dm : @matrix F) (coords : list (@xyz F)).


End DensityExtras.

Section Composition.

Context {F : Type} {N : Numeric F} {Basis : Type} {E : @Engine F Basis}.
Implicit Types (mol : @Mole F Basis) (dm : @matrix F) (coords : list (@xyz F)).

(** X9.  [density] followed by [mep] on the same molecule and grid, as the
    main block does: both return normally; the potential cube is in its
    file; when the two files differ the density cube is still in its file,
    with the values [density] computed; every other file is as before. *)
Theorem density_then_mep mol (den pot : string) dm (nx ny nz : Z) (fs : filesys) :
  0 < nx -> 0 < ny -> 0 < nz ->
  atoms mol <> [] ->
  let coords := get_coords {| cc_mol := mol; cc_nx := nx; cc_ny := ny; cc_nz := nz |} in
  Forall (fun p => is_ok (electronic_term mol dm p) = true) coords ->
  exists (fs1 fs2 : filesys) (mol' : Mole) (cubeD cubeP : CubeFile),
    density mol den dm (Some nx) (Some ny) (Some nz) fs = (Ok tt, fs1) /\
    mep mol pot dm (Some nx) (Some ny) (Some nz) fs1 = (Ok tt, mol', fs2) /\
    cube_data cubeD = map (density_at mol dm) coords /\
    cube_comment cubeP = "Molecular electrostatic potential in real space"%string /\
    fs2 !! pot = Some cubeP /\
    (den <> pot -> fs2 !! den = Some cubeD) /\
    (forall f : string, f <> den -> f <> pot -> fs2 !! f = fs !! f).
Proof.
  intros Hx Hy Hz Hat coords Hok.
  destruct (electronic_values mol dm coords Hok) as (vs & Hvs).
  set (cubeD := {| cube_comment := "Electron density in real space (e/Bohr^3)";
                   cube_atoms := atoms mol;
                   cube_shape := (nx, ny, nz);
                   cube_data := map (density_at mol dm) coords |}).
  set (cubeP := {| cube_comment := "Molecular electrostatic potential in real space";
                   cube_atoms := atoms mol;
                   cube_shape := (nx, ny, nz);
                   cube_data := zip_with fsub (map (nuclear_term mol) coords) vs |}).
  exists (<[ den := cubeD ]> fs), (<[ pot := cubeP ]> (<[ den := cubeD ]> fs)),
    (foldl set_rinv_orig_ mol coords), cubeD, cubeP.
  split; [apply density_run; assumption |].
  split; [apply (mep_run mol pot dm nx ny nz _ vs); assumption |].
  unfold filesys in *.
  split; [reflexivity | split; [reflexivity | split; [| split]]].
  - apply lookup_insert_eq.
  - intros Hne. rewrite lookup_insert_ne by congruence. apply lookup_insert_eq.
  - intros f Hd Hp. rewrite !lookup_insert_ne by congruence. reflexivity.
Qed.

End Composition.

(** ** Instances of the further theorems *)

Section MoreInstances64.

#[local] Existing Instance binary64.
#[local] Existing Instance toy64.

#[local] Abbreviation fs64 := (∅ : @filesys float).

Lemma mep_values_without_atoms_witness :
  mep_values empty64 dm64 [origin64] =
    (Raise TypeError, foldl set_rinv_orig_ empty64 [origin64]).
Proof.
  apply (proj2 (mep_values_without_atoms empty64 dm64 [origin64] eq_refl)).
  repeat constructor.
Defined.

Lemma mep_contraction_error_witness :
  @mep float binary64 unit duo64 OH64 "pot.cube" dm64_3x3 (Some 2) (Some 1) (Some 1) fs64 =
    (Raise ValueError, set_rinv_orig_ OH64 origin64, fs64).
Proof.
  apply (@mep_contraction_error float binary64 unit duo64
           OH64 "pot.cube" dm64_3x3 2 1 1 fs64 ValueError origin64 []
           [ {| cx := 1%float; cy := 0%float; cz := 0%float |} ]).
  - lia.
  - lia.
  - lia.
  - vm_compute. reflexivity.
  - constructor.
  - vm_compute. reflexivity.
Defined.

Lemma mep_success_requires_witness :
  0 < 3 /\ 0 < 1 /\ 0 < 1 /\
  atoms OH64 <> [] /\
  Forall (fun p => is_ok (electronic_term OH64 dm64 p) = true) (line64 3).
Proof.
  exact (mep_success_requires OH64 "pot.cube" dm64 3 1 1 fs64 _ _ mep_OH64_line).
Defined.

Lemma density_then_mep_witness :
  exists (fs1 fs2 : @filesys float) (mol' : @Mole float unit)
         (cubeD cubeP : @CubeFile float),
    density OH64 "den.cube" dm64 (Some 3) (Some 1) (Some 1) fs64 = (Ok tt, fs1) /\
    mep OH64 "pot.cube" dm64 (Some 3) (Some 1) (Some 1) fs1 = (Ok tt, mol', fs2) /\
    cube_data cubeD = map (density_at OH64 dm64) (line64 3) /\
    cube_comment cubeP = "Molecular electrostatic potential in real space"%string /\
    fs2 !! "pot.cube" = Some cubeP /\
    ("den.cube" <> "pot.cube" -> fs2 !! "den.cube" = Some cubeD) /\
    (forall f : string, f <> "den.cube" -> f <> "pot.cube" -> fs2 !! f = fs64 !! f).
Proof.
  apply (density_then_mep OH64 "den.cube" "pot.cube" dm64 3 1 1 fs64);
    [lia | lia | lia | discriminate |].
  vm_compute. repeat constructor.
Defined.

End MoreInstances64.
